(** * Model-intel core: provider extraction, capability flags,
      benchmark parsing and benchmark matching

    A shallow embedding of [packages/model-intel-core/src/openRouterModels.ts]
    and of the benchmark parser and matcher, with the properties that the
    specification states about them.

    Conventions of the embedding.
    - A JavaScript string is a [string]: a sequence of 8-bit characters.  The
      embedding agrees with JavaScript on ASCII text; [toLowerCase] and
      [toUpperCase] act on the letters A-Z and a-z only, and the white space
      class [\s] is the ASCII one.
    - A JavaScript number is an IEEE 754 binary64 value, [float], and the
      arithmetic and the comparisons are those of binary64.  A count (the
      length of an array, a counter of a loop) is a [nat] until it enters a
      division.
    - An optional parameter or field ([x?: T]) is an [option].
    - An exception is a result [Throw]; only property access on [null] or
      [undefined] raises one in this code. *)

From Stdlib Require Import ZArith List String Ascii Bool Lia Floats.
From Stdlib Require Uint63.
From stdpp Require Import gmap strings.
Import ListNotations.

Set Warnings "-inexact-float,-register-all".

Local Open Scope string_scope.

(* ===================================================================== *)
(** * Part I: the program                                                 *)
(* ===================================================================== *)

(** ** The string methods used by the sources *)

Module JsString.

Definition code (c : ascii) : N := N_of_ascii c.

Definition isUpper (c : ascii) : bool := (65 <=? code c)%N && (code c <=? 90)%N.
Definition isLower (c : ascii) : bool := (97 <=? code c)%N && (code c <=? 122)%N.
Definition isDigit (c : ascii) : bool := (48 <=? code c)%N && (code c <=? 57)%N.

(** The class [\s]: tab, line feed, vertical tab, form feed, carriage
    return and space. *)
Definition isSpace (c : ascii) : bool :=
  ((9 <=? code c)%N && (code c <=? 13)%N) || (code c =? 32)%N.

Definition lowerChar (c : ascii) : ascii :=
  if isUpper c then ascii_of_N (code c + 32) else c.

(** The characters of ASCII.  On these the methods [toLowerCase] and
    [toUpperCase] of JavaScript act on the letters only.  On a character
    outside ASCII they may give another character ([toUpperCase] turns
    [U+00E9] into [U+00C9]) or one that has no 8-bit code ([U+00FF] becomes
    [U+0178]); such a result is not represented here, so what is stated of
    an upper-cased character below is stated of the characters of ASCII. *)
Definition isAscii (c : ascii) : bool := (code c <? 128)%N.

Definition upperChar (c : ascii) : ascii :=
  if isLower c then ascii_of_N (code c - 32) else c.

(** [s.toLowerCase()] *)
Fixpoint toLowerCase (s : string) : string :=
  match s with
  | EmptyString => EmptyString
  | String c r => String (lowerChar c) (toLowerCase r)
  end.

(** [s.toUpperCase()] *)
Fixpoint toUpperCase (s : string) : string :=
  match s with
  | EmptyString => EmptyString
  | String c r => String (upperChar c) (toUpperCase r)
  end.

(** [s.charAt(0)]: the first character as a string, or [""]. *)
Definition charAt0 (s : string) : string :=
  match s with
  | EmptyString => EmptyString
  | String c _ => String c EmptyString
  end.

(** [s.slice(1)] *)
Definition slice1 (s : string) : string :=
  match s with
  | EmptyString => EmptyString
  | String _ r => r
  end.

(** [s.startsWith(p)] *)
Fixpoint startsWith (s p : string) {struct p} : bool :=
  match p with
  | EmptyString => true
  | String a p' =>
      match s with
      | EmptyString => false
      | String b s' => if Ascii.eqb a b then startsWith s' p' else false
      end
  end.

(** [s.includes(sub)]: [sub] occurs in [s]; the empty string occurs in
    every string. *)
Fixpoint includes (s sub : string) : bool :=
  startsWith s sub ||
  match s with
  | EmptyString => false
  | String _ r => includes r sub
  end.

(** [s.split(sep)] for a non-empty separator.  [skip] counts the characters
    of a separator occurrence that are still to be passed over. *)
Fixpoint split_from (sep : string) (skip : nat) (s : string) : list string :=
  match s with
  | EmptyString => [EmptyString]
  | String c r =>
      match skip with
      | S k => split_from sep k r
      | O =>
          if startsWith s sep
          then EmptyString :: split_from sep (String.length sep - 1) r
          else match split_from sep 0 r with
               | piece :: pieces => String c piece :: pieces
               | [] => [String c EmptyString]
               end
      end
  end.

Definition split (sep s : string) : list string := split_from sep 0 s.

(** [s.trim()] on the left, then on the right. *)
Fixpoint trimStart (s : string) : string :=
  match s with
  | EmptyString => EmptyString
  | String c r => if isSpace c then trimStart r else s
  end.

Fixpoint trimEnd (s : string) : string :=
  match s with
  | EmptyString => EmptyString
  | String c r =>
      match trimEnd r with
      | EmptyString => if isSpace c then EmptyString else String c EmptyString
      | r' => String c r'
      end
  end.

Definition trim (s : string) : string := trimEnd (trimStart s).

(** A string is falsy exactly when it is empty: [!s], [s || d]. *)
Definition isEmpty (s : string) : bool :=
  match s with
  | EmptyString => true
  | String _ _ => false
  end.

Definition orElse (s d : string) : string := if isEmpty s then d else s.

(** A JavaScript string has at most [2 ^ 53 - 1] elements. *)
Definition withinMaxLength (s : string) : Prop :=
  (Z.of_nat (String.length s) < 2 ^ 53)%Z.

(** What [includes] decides: [sub] occurs in [s]. *)
Definition occursIn (sub s : string) : Prop :=
  exists pre post, s = pre +:+ sub +:+ post.

End JsString.

(** ** Numbers: [parseFloat] *)

Module JsNumber.
Import JsString.

Local Open Scope Z_scope.

Definition digitValue (c : ascii) : Z := Z.of_N (code c) - 48.

(** Reads a run of decimal digits: the digits are appended to [acc], and
    [count] is increased by their number. *)
Fixpoint readDigits (acc count : Z) (s : string) : Z * Z * string :=
  match s with
  | EmptyString => (acc, count, s)
  | String c r =>
      if isDigit c then readDigits (10 * acc + digitValue c) (count + 1) r
      else (acc, count, s)
  end.

Definition readSign (s : string) : bool * string :=
  match s with
  | String "-"%char r => (true, r)
  | String "+"%char r => (false, r)
  | _ => (false, s)
  end.

(** An exponent part is [e] or [E], an optional sign and at least one
    digit; anything else is not part of the number. *)
Definition readExponent (s : string) : Z :=
  match s with
  | String c r =>
      if (Ascii.eqb c "e" || Ascii.eqb c "E")%bool then
        let '(neg, r') := readSign r in
        let '(v, n, _) := readDigits 0 0 r' in
        if n =? 0 then 0 else if neg then - v else v
      else 0
  | EmptyString => 0
  end.

(** The binary64 value nearest to [m * 10 ^ e10] (ties to even), computed
    with the rounding functions of the standard library's specification
    of IEEE 754 arithmetic. *)
Definition roundDecimal (neg : bool) (m e10 : Z) : spec_float :=
  match m with
  | Zpos _ =>
      if 0 <=? e10 then
        binary_normalize prec emax (cond_Zopp neg (m * 10 ^ e10)) 0 neg
      else
        let '(q, e, l) := SFdiv_core_binary prec emax m 0 (10 ^ (- e10)) 0 in
        binary_round_aux prec emax neg q e l
  | _ => S754_zero neg
  end.

(** [parseFloat(s)]: leading white space is skipped, the longest prefix
    that is a decimal literal is read, and [NaN] is returned when there is
    none. *)
Definition parseFloat (s : string) : float :=
  let '(neg, body) := readSign (trimStart s) in
  if startsWith body "Infinity" then (if neg then neg_infinity else infinity)
  else
    let '(intPart, intCount, afterInt) := readDigits 0 0 body in
    let '(mant, fracCount, afterFrac) :=
      match afterInt with
      | String "."%char r => readDigits intPart 0 r
      | _ => (intPart, 0, afterInt)
      end in
    if intCount + fracCount =? 0 then nan
    else SF2Prim (roundDecimal neg mant (readExponent afterFrac - fracCount)).

(** A count as a number.  The conversion is exact for the counts that can
    occur: no array and no string of JavaScript has [2 ^ 53] elements. *)
Definition numberOfNat (n : nat) : float :=
  of_uint63 (Uint63.of_Z (Z.of_nat n)).

End JsNumber.

(** ** [openRouterModels.ts] *)

Module OpenRouterModels.
Import JsString JsNumber.

Definition PROVIDER_MAP : gmap string string :=
  list_to_map
    [ ("openai", "OpenAI");
      ("anthropic", "Anthropic");
      ("google", "Google");
      ("meta-llama", "Meta");
      ("mistralai", "Mistral");
      ("cohere", "Cohere");
      ("deepseek", "DeepSeek");
      ("perplexity", "Perplexity");
      ("x-ai", "xAI");
      ("amazon", "Amazon");
      ("microsoft", "Microsoft");
      ("nvidia", "NVIDIA");
      ("qwen", "Qwen");
      ("moonshotai", "Moonshot AI");
      ("minimax", "MiniMax");
      ("z-ai", "Z-AI") ].

(** [PROVIDER_MAP] is written as an object literal, so the property read
    [PROVIDER_MAP[providerSlug]] also finds what the literal inherits from
    [Object.prototype].  These members are functions or objects: truthy, and
    not strings. *)
Definition objectPrototypeMembers : list string :=
  [ "constructor"; "__defineGetter__"; "__defineSetter__"; "hasOwnProperty";
    "__lookupGetter__"; "__lookupSetter__"; "isPrototypeOf";
    "propertyIsEnumerable"; "toString"; "valueOf"; "__proto__";
    "toLocaleString" ].

(** What [extractProvider] hands back: a provider name, or the inherited
    member that the table read came across. *)
Inductive ProviderResult : Type :=
| ProviderName (name : string)
| PrototypeMember (member : string).

Definition isInherited (key : string) : bool :=
  existsb (String.eqb key) objectPrototypeMembers.

Definition capitalizeFirst (providerSlug : string) : string :=
  toUpperCase (charAt0 providerSlug) +:+ slice1 providerSlug.

Definition extractProvider (modelId : string) : ProviderResult :=
  let parts := split "/" modelId in
  if (length parts <? 2)%nat then ProviderName "Unknown"
  else
    let providerSlug := toLowerCase (hd "" parts) in
    match PROVIDER_MAP !! providerSlug with
    | Some name => if isEmpty name then ProviderName (capitalizeFirst providerSlug)
                   else ProviderName name
    | None =>
        if isInherited providerSlug then PrototypeMember providerSlug
        else ProviderName (capitalizeFirst providerSlug)
    end.

Definition normalizeModality (modality : option string) : string :=
  match modality with
  | None => "text->text"
  | Some m => if isEmpty m then "text->text" else toLowerCase m
  end.

Definition tokenPriceToMillionPrice (pricePerToken : option string) : float :=
  match pricePerToken with
  | None => 0%float
  | Some s =>
      if isEmpty s then 0%float
      else
        let price := parseFloat s in
        if PrimFloat.is_nan price then 0%float
        else (price * 1000000)%float
  end.

Record Pricing : Type := {
  prompt : option string;
  completion : option string
}.

Record OpenRouterModel : Type := {
  id : string;
  name : string;
  description : option string;
  context_length : option float;
  pricing : option Pricing;
  architecture_modality : option string;
  supported_parameters : option (list string);
  capabilities : option (list string)
}.

Record ParsedModel : Type := {
  pm_id : string;
  pm_name : string;
  pm_provider : ProviderResult;
  pm_contextWindow : float;
  pm_inputPrice : float;
  pm_outputPrice : float;
  pm_modality : string;
  pm_description : option string;
  pm_supportedParams : option (list string);
  pm_capabilities : option (list string)
}.

Definition normalizeOpenRouterModel (model : OpenRouterModel) : ParsedModel :=
  {| pm_id := id model;
     pm_name := name model;
     pm_provider := extractProvider (id model);
     pm_contextWindow := default 0%float (context_length model);
     pm_inputPrice := tokenPriceToMillionPrice (pricing model ≫= prompt);
     pm_outputPrice := tokenPriceToMillionPrice (pricing model ≫= completion);
     pm_modality := normalizeModality (architecture_modality model);
     pm_description := description model;
     pm_supportedParams := supported_parameters model;
     pm_capabilities := capabilities model |}.

(** [modality?.split('->')[i] || ''] *)
Definition modalityPart (i : nat) (modality : option string) : string :=
  match modality with
  | None => ""
  | Some m => nth i (split "->" m) ""
  end.

Definition supportsVision (modality : option string) : bool :=
  let inputPart := modalityPart 0 modality in
  includes inputPart "image".

Definition supportsAudio (modality : option string) : bool :=
  let inputPart := modalityPart 0 modality in
  includes inputPart "audio".

(** [supportedParams?.includes(p) ?? false] *)
Definition paramsInclude (supportedParams : option (list string)) (p : string) : bool :=
  match supportedParams with
  | None => false
  | Some l => existsb (String.eqb p) l
  end.

Definition supportsTools (supportedParams : option (list string)) : bool :=
  paramsInclude supportedParams "tools".

Definition imageGenKeywords : list string :=
  [ "image"; "flux"; "dall-e"; "dalle"; "stable-diffusion"; "sd-"; "sdxl";
    "midjourney"; "imagen"; "ideogram"; "playground"; "kandinsky";
    "dreamshaper"; "deliberate"; "proteus"; "juggernaut" ].

Definition supportsImageGeneration
  (modality modelId modelName : option string)
  (capabilities : option (list string)) : bool :=
  let capabilityHit :=
    match capabilities with
    | Some ((_ :: _) as caps) =>
        let capLower := map toLowerCase caps in
        existsb (fun c => includes c "image-generation" || includes c "image"
                          || String.eqb c "images") capLower
    | _ => false
    end in
  if capabilityHit then true
  else
    let outputPart := modalityPart 1 modality in
    if includes outputPart "image" then true
    else
      let lowerName := toLowerCase (default "" modelName) in
      let lowerId := toLowerCase (default "" modelId) in
      let combined := lowerName +:+ " " +:+ lowerId in
      existsb (fun kw => includes combined kw) imageGenKeywords.

Definition supportsFileInput
  (modality : option string) (supportedParams : option (list string)) : bool :=
  supportsVision modality || paramsInclude supportedParams "file".

Definition searchKeywords : list string :=
  [ "sonar"; "perplexity"; "search"; "web-search"; "web search"; "retrieval";
    "browse" ].

Definition supportsSearchCapability
  (modelId modelName : option string)
  (capabilities supportedParams : option (list string)) : bool :=
  let capValues := map toLowerCase (default [] capabilities) in
  let paramValues := map toLowerCase (default [] supportedParams) in
  if existsb (fun c => includes c "search" || includes c "web"
                       || includes c "retrieval" || includes c "browse") capValues
  then true
  else if existsb (fun p => includes p "search" || includes p "web"
                            || includes p "browse" || includes p "retrieval") paramValues
  then true
  else
    let combined := toLowerCase (default "" modelId +:+ " " +:+ default "" modelName) in
    existsb (fun kw => includes combined kw) searchKeywords.

End OpenRouterModels.

(** ** Untyped values and exceptions *)

Module JsValue.
Import JsString.

(** A value of type [unknown]: what [JSON.parse] can produce, and
    [undefined].  The properties of an object are listed as in an object
    literal; where a key is repeated the last occurrence counts. *)
Inductive JsValue : Type :=
| VUndefined
| VNull
| VBool (b : bool)
| VNumber (x : float)
| VString (s : string)
| VArray (items : list JsValue)
| VObject (props : list (string * JsValue)).

Inductive JsError : Type :=
| TypeError.

(** The result of a call that may raise an exception. *)
Inductive Outcome (A : Type) : Type :=
| Ret (a : A)
| Throw (e : JsError).

Arguments Ret {A} a.
Arguments Throw {A} e.

#[global] Instance Outcome_ret : MRet Outcome := @Ret.

#[global] Instance Outcome_bind : MBind Outcome :=
  fun A B (f : A -> Outcome B) (m : Outcome A) =>
    match m with
    | Ret a => f a
    | Throw e => Throw e
    end.

Definition isUndefined (v : JsValue) : bool :=
  match v with
  | VUndefined => true
  | _ => false
  end.

(** The own property [key] of an object literal. *)
Fixpoint lookupProp (props : list (string * JsValue)) (key : string) : option JsValue :=
  match props with
  | [] => None
  | (k, v) :: rest =>
      match lookupProp rest key with
      | Some later => Some later
      | None => if String.eqb k key then Some v else None
      end
  end.

(** [item[key]] for the property names read by the benchmark parser.
    Reading a property of [null] or [undefined] raises a [TypeError]; none
    of these names exists on a boolean, a number, a string or an array, nor
    on [Object.prototype]. *)
Definition getProp (item : JsValue) (key : string) : Outcome JsValue :=
  match item with
  | VUndefined | VNull => Throw TypeError
  | VObject props => Ret (default VUndefined (lookupProp props key))
  | _ => Ret VUndefined
  end.

End JsValue.

(** ** The benchmark parser and matcher *)

Module Benchmarks.
Import JsString JsNumber JsValue.

Record ModelBenchmark : Type := {
  modelName : string;
  creator : string;
  intelligenceIndex : option float;
  codingIndex : option float;
  mathIndex : option float;
  outputSpeed : option float;
  latency : option float;
  priceInput : option float;
  priceOutput : option float
}.

Fixpoint getValue (item : JsValue) (keys : list string) : Outcome JsValue :=
  match keys with
  | [] => Ret VUndefined
  | key :: rest =>
      v ← getProp item key;
      if isUndefined v then getValue item rest else Ret v
  end.

(** A number, or a string that [parseFloat] reads as a number. *)
Definition asNumber (val : JsValue) : option float :=
  match val with
  | VNumber x => Some x
  | VString s =>
      let num := parseFloat s in
      if PrimFloat.is_nan num then None else Some num
  | _ => None
  end.

Definition asString (val : JsValue) : string :=
  match val with
  | VString s => s
  | _ => ""
  end.

Definition getNumber (item : JsValue) (keys : list string) : Outcome (option float) :=
  val ← getValue item keys;
  mret (asNumber val).

Definition getString (item : JsValue) (keys : list string) : Outcome string :=
  val ← getValue item keys;
  mret (asString val).

(** The loop over the parts of a dotted path: [None] is the early return.
    [part in current] holds for an object that has the key; the path parts
    used are no members of an array. *)
Fixpoint walkPath (current : JsValue) (parts : list string) : option JsValue :=
  match parts with
  | [] => Some current
  | part :: rest =>
      match current with
      | VObject props =>
          match lookupProp props part with
          | Some next => walkPath next rest
          | None => None
          end
      | _ => None
      end
  end.

Definition getNestedString (item : JsValue) (path : string) : string :=
  match walkPath item (split "." path) with
  | Some current => asString current
  | None => ""
  end.

Definition getNestedNumber (item : JsValue) (path : string) : option float :=
  match walkPath item (split "." path) with
  | Some current => asNumber current
  | None => None
  end.

Definition arrayOf (v : option JsValue) : option (list JsValue) :=
  match v with
  | Some (VArray l) => Some l
  | _ => None
  end.

Definition extractModelsArray (raw : JsValue) : list JsValue :=
  match raw with
  | VArray l => l
  | VObject obj =>
      match arrayOf (lookupProp obj "data") with
      | Some l => l
      | None =>
          match arrayOf (lookupProp obj "models") with
          | Some l => l
          | None =>
              match arrayOf (lookupProp obj "results") with
              | Some l => l
              | None => []
              end
          end
      end
  | _ => []
  end.

(** [a ?? b] where [b] may raise. *)
Definition orNumber (a : option float) (b : Outcome (option float)) : Outcome (option float) :=
  match a with
  | Some x => mret (Some x)
  | None => b
  end.

(** The aliases of the model name, in the order of the call. *)
Definition modelNameAliases : list string :=
  ["model_name"; "name"; "model"; "modelName"; "display_name"].

(** The callback given to [map]: [None] stands for the [null] that the
    filter removes afterwards. *)
Definition parseItem (item : JsValue) : Outcome (option ModelBenchmark) :=
  modelName ← getString item modelNameAliases;
  if isEmpty modelName then mret None
  else
    creator ← (let nested := getNestedString item "model_creator.name" in
               if isEmpty nested
               then getString item ["creator"; "provider"; "organization"]
               else mret nested);
    if isEmpty creator then mret None
    else
      intelligenceIndex ←
        orNumber (getNestedNumber item "evaluations.artificial_analysis_intelligence_index")
                 (getNumber item ["intelligence_index"; "intelligenceIndex"]);
      codingIndex ←
        orNumber (getNestedNumber item "evaluations.artificial_analysis_coding_index")
                 (getNumber item ["coding_index"; "codingIndex"]);
      mathIndex ←
        orNumber (getNestedNumber item "evaluations.artificial_analysis_math_index")
                 (getNumber item ["math_index"; "mathIndex"]);
      outputSpeed ← getNumber item ["median_output_tokens_per_second"; "output_speed"; "outputSpeed"];
      latency ← getNumber item ["median_time_to_first_token_seconds"; "latency"; "ttft"];
      priceInput ← getNumber item ["price_input"; "priceInput"; "input_price"];
      priceOutput ← getNumber item ["price_output"; "priceOutput"; "output_price"];
      mret (Some {| modelName := modelName;
                    creator := creator;
                    intelligenceIndex := intelligenceIndex;
                    codingIndex := codingIndex;
                    mathIndex := mathIndex;
                    outputSpeed := outputSpeed;
                    latency := latency;
                    priceInput := priceInput;
                    priceOutput := priceOutput |}).

(** [models.map(f)]: the callback runs on the items in order, and the first
    exception ends the call. *)
Fixpoint mapItems {A B : Type} (f : A -> Outcome B) (l : list A) : Outcome (list B) :=
  match l with
  | [] => mret []
  | x :: rest =>
      y ← f x;
      ys ← mapItems f rest;
      mret (y :: ys)
  end.

(** [.filter((item) => item !== null)] *)
Fixpoint dropNulls {A : Type} (l : list (option A)) : list A :=
  match l with
  | [] => []
  | Some x :: rest => x :: dropNulls rest
  | None :: rest => dropNulls rest
  end.

Definition parseBenchmarks (raw : JsValue) : Outcome (list ModelBenchmark) :=
  let models := extractModelsArray raw in
  match models with
  | [] => mret []
  | _ :: _ =>
      parsed ← mapItems parseItem models;
      mret (dropNulls parsed)
  end.

Definition replaceNonWord (c : ascii) : ascii :=
  if isLower c || isDigit c || isSpace c then c else " "%char.

Fixpoint mapChars (f : ascii -> ascii) (s : string) : string :=
  match s with
  | EmptyString => EmptyString
  | String c r => String (f c) (mapChars f r)
  end.

(** [.replace(/\s+/g, ' ')]: [inRun] tells that the previous character was
    white space, already replaced. *)
Fixpoint collapseFrom (inRun : bool) (s : string) : string :=
  match s with
  | EmptyString => EmptyString
  | String c r =>
      if isSpace c then
        if inRun then collapseFrom true r else String " " (collapseFrom true r)
      else String c (collapseFrom false r)
  end.

Definition normalizeForMatch (str : string) : string :=
  trim (collapseFrom false (mapChars replaceNonWord (toLowerCase str))).

Definition stopWords : gset string :=
  list_to_set ["ai"; "model"; "v1"; "free"; "pro"; "plus"; "chat"; "instruct"; "preview"].

Definition extractModelTokens (name : string) : list string :=
  let normalized := normalizeForMatch name in
  List.filter
    (fun token => (1 <? String.length token)%nat && negb (bool_decide (token ∈ stopWords)))
    (split " " normalized).

(** The test of the inner loop. *)
Definition tokensMatch (t1 t2 : string) : bool :=
  String.eqb t1 t2 || includes t1 t2 || includes t2 t1.

(** The two nested loops: [matches] is increased once for each token of
    [tokens1] for which the inner loop reaches its [break]. *)
Fixpoint countMatches (tokens1 tokens2 : list string) : nat :=
  match tokens1 with
  | [] => 0
  | t1 :: rest =>
      (if existsb (tokensMatch t1) tokens2 then 1 else 0) + countMatches rest tokens2
  end.

Definition calculateSimilarity (name1 name2 : string) : float :=
  let tokens1 := extractModelTokens name1 in
  let tokens2 := extractModelTokens name2 in
  match tokens1, tokens2 with
  | [], _ | _, [] => 0%float
  | _, _ =>
      let matches := countMatches tokens1 tokens2 in
      let maxTokens := Nat.max (length tokens1) (length tokens2) in
      (numberOfNat matches / numberOfNat maxTokens)%float
  end.

(** [modelId.split('/')[0]?.toLowerCase() || ''] *)
Definition providerOf (modelId : string) : string :=
  orElse (toLowerCase (hd "" (split "/" modelId))) "".

(** The score of one record, as computed in the body of the loop. *)
Definition scoreOf (provider modelName' : string) (benchmark : ModelBenchmark) : float :=
  let creatorLower := toLowerCase (creator benchmark) in
  let creatorMatch := includes creatorLower provider || includes provider creatorLower in
  let nameSimilarity := calculateSimilarity modelName' (modelName benchmark) in
  if creatorMatch then (nameSimilarity * 1.2)%float else nameSimilarity.

(** One turn of the loop on the pair [(bestMatch, bestScore)]:
    [score > bestScore && score >= minMatchThreshold]. *)
Definition matchStep (provider modelName' : string) (minMatchThreshold : float)
  (best : option ModelBenchmark * float) (benchmark : ModelBenchmark)
  : option ModelBenchmark * float :=
  let score := scoreOf provider modelName' benchmark in
  if (snd best <? score)%float && (minMatchThreshold <=? score)%float
  then (Some benchmark, score)
  else best.

Definition defaultThreshold : float := 0.5%float.

Definition matchBenchmark (modelId modelName' : string)
  (benchmarks : list ModelBenchmark) (minMatchThreshold : option float)
  : option ModelBenchmark :=
  let threshold := default defaultThreshold minMatchThreshold in
  match benchmarks with
  | [] => None
  | _ :: _ =>
      let provider := providerOf modelId in
      fst (fold_left (matchStep provider modelName' threshold) benchmarks (None, 0%float))
  end.

(** A record can be returned only if its score is positive and reaches the
    threshold. *)
Definition qualifies (threshold s : float) : Prop :=
  (0 <? s)%float = true /\ (threshold <=? s)%float = true.

(** The state of the loop after the records [seen]: [bestScore] is [0]
    until a record is kept, and afterwards the score of the kept record,
    which is the first of the best among the records seen that qualify. *)
Definition loopInvariant (provider modelName' : string) (threshold : float)
  (seen : list ModelBenchmark) (best : option ModelBenchmark * float) : Prop :=
  let score := scoreOf provider modelName' in
  match fst best with
  | None =>
      snd best = 0%float /\ forall x, In x seen -> ~ qualifies threshold (score x)
  | Some b =>
      snd best = score b /\ qualifies threshold (score b) /\
      exists pre post,
        seen = (pre ++ b :: post)%list /\
        (forall x, In x pre -> qualifies threshold (score x) ->
           (score x <? score b)%float = true) /\
        (forall x, In x post -> qualifies threshold (score x) ->
           (score x <=? score b)%float = true)
  end.

(** A record with only the two required fields. *)
Definition namedRecord (name creatorName : string) : ModelBenchmark :=
  {| modelName := name; creator := creatorName;
     intelligenceIndex := None; codingIndex := None; mathIndex := None;
     outputSpeed := None; latency := None; priceInput := None; priceOutput := None |}.

End Benchmarks.

(* ===================================================================== *)
(** * Part II: properties                                                 *)
(* ===================================================================== *)

(** ** Strings *)

Module JsStringFacts.
Import JsString.

Lemma append_nil_l (s : string) : "" +:+ s = s.
Proof. reflexivity. Qed.

Lemma append_cons (c : ascii) (r s : string) : String c r +:+ s = String c (r +:+ s).
Proof. reflexivity. Qed.

Lemma append_empty_r (s : string) : s +:+ "" = s.
Proof.
  induction s as [|c r IH]; [reflexivity|]. now rewrite append_cons, IH.
Qed.

Lemma append_assoc (a b c : string) : (a +:+ b) +:+ c = a +:+ (b +:+ c).
Proof.
  induction a as [|x r IH]; [reflexivity|]. now rewrite !append_cons, IH.
Qed.

Lemma startsWith_spec (s p : string) :
  startsWith s p = true <-> exists post, s = p +:+ post.
Proof.
  revert s. induction p as [|a p IH]; intros s; simpl.
  - split; [intros _; now exists s | reflexivity].
  - destruct s as [|b s].
    + split; [discriminate | intros [post H]; discriminate].
    + destruct (Ascii.eqb_spec a b) as [->|Hne].
      * rewrite IH. split; intros [post H]; exists post.
        -- now rewrite append_cons, H.
        -- rewrite append_cons in H. now inversion H.
      * split; [discriminate|].
        intros [post H]. rewrite append_cons in H. inversion H. congruence.
Qed.

Lemma includes_spec (s sub : string) :
  includes s sub = true <-> occursIn sub s.
Proof.
  unfold occursIn. induction s as [|c r IH]; simpl.
  - rewrite orb_false_r, startsWith_spec. split.
    + intros [post H]. now exists "", post.
    + intros [pre [post H]]. destruct pre as [|x pre].
      * now exists post.
      * rewrite append_cons in H. discriminate.
  - rewrite orb_true_iff, startsWith_spec, IH. split.
    + intros [[post H]|[pre [post H]]].
      * now exists "", post.
      * exists (String c pre), post. now rewrite append_cons, H.
    + intros [pre [post H]]. destruct pre as [|x pre].
      * left. now exists post.
      * right. rewrite append_cons in H. inversion H. now exists pre, post.
Qed.

Lemma includes_false_spec (s sub : string) :
  includes s sub = false <-> ~ occursIn sub s.
Proof.
  rewrite <- includes_spec. destruct (includes s sub); split; congruence.
Qed.

Lemma includes_char_cons (c x : ascii) (r : string) :
  includes (String x r) (String c "") = Ascii.eqb c x || includes r (String c "").
Proof.
  simpl. destruct (Ascii.eqb c x); [|reflexivity]. now destruct r.
Qed.

Lemma lowerChar_slash (c : ascii) :
  Ascii.eqb "/" (lowerChar c) = Ascii.eqb "/" c.
Proof. destruct c as [[] [] [] [] [] [] [] []]; reflexivity. Qed.

Lemma includes_slash_toLowerCase (s : string) :
  includes (toLowerCase s) "/" = includes s "/".
Proof.
  induction s as [|c r IH]; [reflexivity|].
  cbn [toLowerCase]. rewrite !includes_char_cons, IH, lowerChar_slash. reflexivity.
Qed.

Lemma split_from_nonempty (sep : string) (k : nat) (s : string) :
  split_from sep k s <> [].
Proof.
  revert k. induction s as [|c r IH]; intros k; simpl; [discriminate|].
  destruct k; [|apply IH].
  destruct (startsWith (String c r) sep); [discriminate|].
  destruct (split_from sep 0 r); discriminate.
Qed.

(** Splitting on a one-character separator. *)
Lemma split_char_cons (c x : ascii) (r : string) :
  split (String c "") (String x r) =
  if Ascii.eqb c x then "" :: split (String c "") r
  else match split (String c "") r with
       | piece :: pieces => String x piece :: pieces
       | [] => [String x ""]
       end.
Proof.
  unfold split. simpl. destruct (Ascii.eqb c x); [|reflexivity]. now destruct r.
Qed.

Lemma split_char_absent (c : ascii) (s : string) :
  includes s (String c "") = false -> split (String c "") s = [s].
Proof.
  induction s as [|x r IH]; [reflexivity|].
  rewrite includes_char_cons, split_char_cons, orb_false_iff.
  intros [Hx Hr]. rewrite Hx, (IH Hr). reflexivity.
Qed.

Lemma split_char_first (c : ascii) (pre post : string) :
  includes pre (String c "") = false ->
  split (String c "") (pre +:+ String c post) = pre :: split (String c "") post.
Proof.
  induction pre as [|x r IH]; intros H.
  - rewrite append_nil_l, split_char_cons, Ascii.eqb_refl. reflexivity.
  - rewrite includes_char_cons, orb_false_iff in H. destruct H as [Hx Hr].
    rewrite append_cons, split_char_cons, Hx, (IH Hr). reflexivity.
Qed.

Lemma split_char_length (c : ascii) (pre post : string) :
  includes pre (String c "") = false ->
  2 <= length (split (String c "") (pre +:+ String c post)).
Proof.
  intros H. rewrite (split_char_first _ _ _ H).
  pose proof (split_from_nonempty (String c "") 0 post) as Hne.
  unfold split. destruct (split_from (String c "") 0 post); [contradiction|simpl; lia].
Qed.

Lemma isEmpty_true (s : string) : isEmpty s = true <-> s = "".
Proof. destruct s; simpl; split; congruence. Qed.

Lemma isEmpty_false (s : string) : isEmpty s = false <-> s <> "".
Proof. destruct s; simpl; split; congruence. Qed.

Lemma toLowerCase_empty (s : string) : toLowerCase s = "" <-> s = "".
Proof. destruct s; simpl; split; congruence. Qed.

Lemma upperChar_fixed (c : ascii) : upperChar c = c <-> isLower c = false.
Proof. destruct c as [[] [] [] [] [] [] [] []]; vm_compute; split; congruence. Qed.

End JsStringFacts.

(** ** Binary64 arithmetic

    What the matcher needs of IEEE 754 arithmetic: the order of the numbers
    is transitive and total on positive numbers, the quotient of two counts
    is at most one when the first count is at most the second, and
    multiplying such a quotient by 1.2 gives at most 1.2.  The facts are
    derived from the standard library's specification of the binary64
    operations. *)

Module Binary64Facts.
Import JsNumber.

Local Open Scope Z_scope.

(** *** Powers of two and the number of binary digits *)

Lemma pow2_pos (k : Z) : 0 <= k -> 0 < 2 ^ k.
Proof. intros. apply Z.pow_pos_nonneg; lia. Qed.

Lemma pow2_double (k : Z) : 0 <= k -> 2 ^ (2 * k) = 2 ^ k * 2 ^ k.
Proof.
  intros Hk. replace (2 * k) with (k + k) by lia. now apply Z.pow_add_r.
Qed.

Lemma pow2_xO (p : positive) : 2 ^ Z.pos p~0 = 2 ^ Z.pos p * 2 ^ Z.pos p.
Proof. change (Z.pos p~0) with (2 * Z.pos p). apply pow2_double. lia. Qed.

Lemma pow2_xI (p : positive) : 2 ^ Z.pos p~1 = 2 * 2 ^ Z.pos p * 2 ^ Z.pos p.
Proof.
  change (Z.pos p~1) with (2 * Z.pos p + 1).
  rewrite Z.add_comm, Z.pow_add_r, pow2_double by lia.
  change (2 ^ 1) with 2. lia.
Qed.

(** A positive number of [d] binary digits lies in [[2 ^ (d - 1), 2 ^ d)],
    and this determines [d]. *)
Lemma digits2_pos_bounds (p : positive) :
  2 ^ (Z.pos (digits2_pos p) - 1) <= Z.pos p < 2 ^ Z.pos (digits2_pos p).
Proof.
  induction p as [p IH|p IH|]; cbn [digits2_pos].
  - rewrite Pos2Z.inj_succ.
    replace (Z.succ (Z.pos (digits2_pos p)) - 1) with (Z.succ (Z.pos (digits2_pos p) - 1)) by lia.
    rewrite !Z.pow_succ_r by lia. lia.
  - rewrite Pos2Z.inj_succ.
    replace (Z.succ (Z.pos (digits2_pos p)) - 1) with (Z.succ (Z.pos (digits2_pos p) - 1)) by lia.
    rewrite !Z.pow_succ_r by lia. lia.
  - simpl. lia.
Qed.

Lemma digits2_pos_unique (p : positive) (k : Z) :
  2 ^ (k - 1) <= Z.pos p < 2 ^ k -> Z.pos (digits2_pos p) = k.
Proof.
  intros [Hlo Hhi]. pose proof (digits2_pos_bounds p) as [Hlo' Hhi'].
  assert (0 < k).
  { destruct (Z.ltb_spec 0 k); [assumption|].
    rewrite (Z.pow_neg_r 2 (k - 1)) in Hlo by lia.
    destruct (Z.eq_dec k 0) as [->|]; [simpl in Hhi; lia|].
    rewrite Z.pow_neg_r in Hhi by lia. lia. }
  assert (k - 1 < Z.pos (digits2_pos p)).
  { apply (Z.pow_lt_mono_r_iff 2); try lia. }
  assert (Z.pos (digits2_pos p) - 1 < k).
  { apply (Z.pow_lt_mono_r_iff 2); try lia. }
  lia.
Qed.

(** *** Shifting a mantissa to the right

    [shr] divides the mantissa by a power of two; the bits shifted out are
    kept in the record and decide the rounding only. *)

Lemma shr_1_m (mrs : shr_record) :
  0 <= shr_m mrs -> shr_m (shr_1 mrs) = shr_m mrs / 2.
Proof.
  destruct mrs as [m r s]. cbn [shr_m]. intros Hm. unfold shr_1.
  destruct m as [|p|p]; [reflexivity| |lia].
  destruct p as [p|p|]; cbn [shr_m].
  - change (Z.pos p~1) with (2 * Z.pos p + 1). apply Z.div_unique with 1; lia.
  - change (Z.pos p~0) with (2 * Z.pos p). apply Z.div_unique with 0; lia.
  - reflexivity.
Qed.

Lemma iter_pos_shr_1_m (p : positive) (mrs : shr_record) :
  0 <= shr_m mrs -> shr_m (SpecFloat.iter_pos shr_1 p mrs) = shr_m mrs / 2 ^ Z.pos p.
Proof.
  revert mrs. induction p as [p IH|p IH|]; intros mrs Hm; cbn [SpecFloat.iter_pos].
  - pose proof (pow2_pos (Z.pos p) ltac:(lia)) as Hp.
    assert (H1 : 0 <= shr_m (shr_1 mrs)) by (rewrite shr_1_m by lia; apply Z.div_pos; lia).
    assert (H2 : 0 <= shr_m (SpecFloat.iter_pos shr_1 p (shr_1 mrs)))
      by (rewrite IH by lia; apply Z.div_pos; lia).
    rewrite IH, IH, shr_1_m by lia.
    rewrite pow2_xI, <- !Z.div_div; lia.
  - pose proof (pow2_pos (Z.pos p) ltac:(lia)) as Hp.
    assert (H2 : 0 <= shr_m (SpecFloat.iter_pos shr_1 p mrs))
      by (rewrite IH by lia; apply Z.div_pos; lia).
    rewrite IH, IH by lia.
    rewrite pow2_xO, <- Z.div_div; lia.
  - rewrite shr_1_m by lia. reflexivity.
Qed.

Lemma shr_m_of_loc (m : Z) (l : location) : shr_m (shr_record_of_loc m l) = m.
Proof. destruct l as [|[]]; reflexivity. Qed.

Lemma shr_spec (m : Z) (l : location) (e n : Z) :
  0 <= m -> 0 <= n ->
  shr_m (fst (shr (shr_record_of_loc m l) e n)) = m / 2 ^ n /\
  snd (shr (shr_record_of_loc m l) e n) = e + n.
Proof.
  intros Hm Hn. unfold shr. destruct n as [|p|p]; [| |lia]; cbn [fst snd].
  - rewrite shr_m_of_loc, Z.div_1_r. lia.
  - rewrite iter_pos_shr_1_m, shr_m_of_loc by (rewrite shr_m_of_loc; lia). lia.
Qed.

(** Rounding to nearest adds at most one unit to the truncated mantissa. *)
Lemma round_nearest_even_bounds (m : Z) (l : location) :
  m <= round_nearest_even m l <= m + 1.
Proof.
  unfold round_nearest_even. destruct l as [|[]]; try lia.
  destruct (Z.even m); lia.
Qed.

(** The exponent of the last digit, for a number above the subnormal
    range. *)
Lemma fexp64 (e : Z) : -1021 <= e -> fexp prec emax e = e - 53.
Proof. unfold fexp, SpecFloat.emin, prec, emax. lia. Qed.

Lemma Zdigits2_div_pow (m n : Z) :
  0 < m -> 0 <= n -> n < Zdigits2 m -> Zdigits2 (m / 2 ^ n) = Zdigits2 m - n.
Proof.
  intros Hm Hn Hlt. destruct m as [|p|p]; try lia. cbn [Zdigits2] in *.
  pose proof (digits2_pos_bounds p) as [Hlo Hhi].
  pose proof (pow2_pos n Hn) as Hpn.
  assert (Hq : 2 ^ (Z.pos (digits2_pos p) - n - 1) <= Z.pos p / 2 ^ n < 2 ^ (Z.pos (digits2_pos p) - n)).
  { split.
    - apply Z.div_le_lower_bound; [lia|].
      rewrite <- Z.pow_add_r by lia.
      replace (n + (Z.pos (digits2_pos p) - n - 1)) with (Z.pos (digits2_pos p) - 1) by lia. lia.
    - apply Z.div_lt_upper_bound; [lia|].
      rewrite <- Z.pow_add_r by lia.
      replace (n + (Z.pos (digits2_pos p) - n)) with (Z.pos (digits2_pos p)) by lia. lia. }
  assert (0 < Z.pos p / 2 ^ n).
  { pose proof (pow2_pos (Z.pos (digits2_pos p) - n - 1) ltac:(lia)). lia. }
  destruct (Z.pos p / 2 ^ n) as [|q|q] eqn:E; try lia.
  cbn [Zdigits2]. apply digits2_pos_unique. lia.
Qed.

Lemma Zdigits2_bounds (m : Z) :
  0 < m -> 2 ^ (Zdigits2 m - 1) <= m < 2 ^ Zdigits2 m.
Proof.
  intros Hm. destruct m as [|p|p]; try lia. apply digits2_pos_bounds.
Qed.

Lemma Zdigits2_unique (m k : Z) :
  2 ^ (k - 1) <= m < 2 ^ k -> 0 < m -> Zdigits2 m = k.
Proof.
  intros H Hm. destruct m as [|p|p]; try lia. now apply digits2_pos_unique.
Qed.

(** *** Rounding

    The result of rounding a mantissa [mx] of at least 53 digits, away from
    the subnormal range and from overflow: the mantissa is cut to its 53
    leading digits [m1], and either [m1] or [m1 + 1] is kept; when
    [m1 + 1] reaches [2 ^ 53] the result is [2 ^ 52] with the next
    exponent. *)
Lemma binary_round_aux_shape (sx : bool) (mx ex : Z) (lx : location) :
  0 < mx ->
  53 <= Zdigits2 mx ->
  -1021 <= Zdigits2 mx + ex <= 1023 ->
  let n := Zdigits2 mx - 53 in
  let e1 := ex + n in
  let m1 := mx / 2 ^ n in
  2 ^ 52 <= m1 < 2 ^ 53 /\
  exists m e,
    binary_round_aux prec emax sx mx ex lx = S754_finite sx m e /\
    ((e = e1 /\ m1 <= Z.pos m <= m1 + 1 /\ Z.pos m < 2 ^ 53) \/
     (e = e1 + 1 /\ Z.pos m = 2 ^ 52 /\ m1 + 1 = 2 ^ 53)).
Proof.
  intros Hmx Hd Hrange n e1 m1.
  assert (Hn : 0 <= n) by (subst n; lia).
  assert (Hm1d : Zdigits2 m1 = 53).
  { subst m1. rewrite Zdigits2_div_pow by (subst n; lia). subst n. lia. }
  assert (Hm1pos : 0 < m1).
  { subst m1. pose proof (Zdigits2_bounds mx Hmx) as [Hlo _].
    pose proof (pow2_pos n Hn).
    apply Z.div_str_pos. split; [lia|].
    eapply Z.le_trans; [|exact Hlo]. apply Z.pow_le_mono_r; subst n; lia. }
  assert (Hm1 : 2 ^ 52 <= m1 < 2 ^ 53).
  { pose proof (Zdigits2_bounds m1 Hm1pos) as H. rewrite Hm1d in H. exact H. }
  split; [exact Hm1|].
  unfold binary_round_aux, shr_fexp.
  rewrite fexp64 by lia.
  replace (Zdigits2 mx + ex - 53 - ex) with n by (subst n; lia).
  destruct (shr_spec mx lx ex n ltac:(lia) Hn) as [Hs1 Hs2].
  destruct (shr (shr_record_of_loc mx lx) ex n) as [mrs' e'] eqn:E1.
  cbn [fst snd] in Hs1, Hs2. fold m1 in Hs1. fold e1 in Hs2. subst e'.
  rewrite Hs1.
  pose proof (round_nearest_even_bounds m1 (loc_of_shr_record mrs')) as Hr.
  set (m2 := round_nearest_even m1 (loc_of_shr_record mrs')) in *.
  destruct (Z.ltb_spec m2 (2 ^ 53)) as [Hlt|Hge].
  - (* no carry *)
    assert (Hd2 : Zdigits2 m2 = 53) by (apply Zdigits2_unique; lia).
    rewrite Hd2, fexp64 by (subst e1 n; lia).
    replace (53 + e1 - 53 - e1) with 0 by lia.
    cbn [shr]. rewrite shr_m_of_loc.
    destruct m2 as [|p|p] eqn:Em2; try lia.
    exists p, e1. split.
    + destruct (Z.leb_spec e1 (emax - prec)); [reflexivity|].
      unfold emax, prec in *. subst e1 n. lia.
    + left. lia.
  - (* the mantissa is rounded up to 2 ^ 53 *)
    assert (Hm2 : m2 = 2 ^ 53) by lia.
    rewrite Hm2. change (2 ^ 53) with 9007199254740992.
    change (Zdigits2 9007199254740992) with 54.
    rewrite fexp64 by (subst e1 n; lia).
    replace (54 + e1 - 53 - e1) with 1 by lia.
    exists 4503599627370496%positive, (e1 + 1). split.
    + unfold shr, shr_record_of_loc. cbn [SpecFloat.iter_pos shr_1 shr_m orb].
      replace (e1 + 1 <=? emax - prec) with true; [reflexivity|].
      symmetry. apply Z.leb_le. unfold emax, prec. subst e1 n. lia.
    + right. change (Z.pos 4503599627370496) with (2 ^ 52). lia.
Qed.

(** A mantissa of 53 digits that is given as exact is kept as it is. *)
Lemma binary_round_aux_exact (sx : bool) (mx : positive) (ex : Z) :
  Z.pos (digits2_pos mx) = 53 ->
  -1074 <= ex <= 971 ->
  binary_round_aux prec emax sx (Z.pos mx) ex loc_Exact = S754_finite sx mx ex.
Proof.
  intros Hd Hex. unfold binary_round_aux, shr_fexp. cbn [Zdigits2]. rewrite Hd.
  assert (Hf : fexp prec emax (53 + ex) - ex = 0)
    by (unfold fexp, SpecFloat.emin, prec, emax; lia).
  rewrite Hf. cbn [shr shr_record_of_loc shr_m loc_of_shr_record round_nearest_even Zdigits2].
  rewrite Hd, Hf. cbn [shr shr_record_of_loc shr_m].
  replace (ex <=? emax - prec) with true; [reflexivity|].
  symmetry. apply Z.leb_le. unfold emax, prec. lia.
Qed.

Lemma Pos_iter_xO (p k : positive) : Z.pos (Pos.iter xO p k) = Z.pos p * 2 ^ Z.pos k.
Proof.
  induction k as [|k IH] using Pos.peano_ind.
  - cbn [Pos.iter]. change (Z.pos p~0) with (2 * Z.pos p). change (2 ^ 1) with 2. lia.
  - rewrite Pos.iter_succ. change (Z.pos (Pos.iter xO p k)~0) with (2 * Z.pos (Pos.iter xO p k)).
    rewrite IH, Pos2Z.inj_succ, Z.pow_succ_r by lia. lia.
Qed.

(** The binary64 value of an integer below [2 ^ 53] is exact: the integer,
    shifted to a mantissa of 53 digits. *)
Lemma binary_normalize_small (z : Z) :
  0 < z < 2 ^ 53 ->
  exists m : positive,
    binary_normalize prec emax z 0 false = S754_finite false m (Zdigits2 z - 53) /\
    Z.pos m = z * 2 ^ (53 - Zdigits2 z) /\
    2 ^ 52 <= Z.pos m < 2 ^ 53.
Proof.
  intros Hz. destruct z as [|p|p]; try lia.
  pose proof (digits2_pos_bounds p) as Hb.
  assert (Hd : 1 <= Z.pos (digits2_pos p) <= 53).
  { split; [lia|].
    destruct (Z.leb_spec (Z.pos (digits2_pos p)) 53); [assumption|].
    assert (2 ^ 53 <= 2 ^ (Z.pos (digits2_pos p) - 1)) by (apply Z.pow_le_mono_r; lia).
    lia. }
  cbn [binary_normalize Zdigits2]. unfold binary_round, shl_align.
  rewrite Z.add_0_r.
  assert (Hf : fexp prec emax (Z.pos (digits2_pos p)) = Z.pos (digits2_pos p) - 53)
    by (apply fexp64; lia).
  rewrite Hf, Z.sub_0_r.
  destruct (Z.pos (digits2_pos p) - 53) as [|k|k] eqn:Ek; try lia.
  - (* 53 digits already *)
    exists p. replace (53 - Z.pos (digits2_pos p)) with 0 by lia.
    rewrite binary_round_aux_exact by lia.
    replace (Z.pos (digits2_pos p)) with 53 in Hb by lia.
    split; [reflexivity|]. split; [lia|]. lia.
  - (* shifted left *)
    set (m := Pos.iter xO p k).
    assert (Hm : Z.pos m = Z.pos p * 2 ^ Z.pos k) by apply Pos_iter_xO.
    assert (Hk : Z.pos k = 53 - Z.pos (digits2_pos p)) by lia.
    assert (Hmb : 2 ^ 52 <= Z.pos m < 2 ^ 53).
    { rewrite Hm. pose proof (pow2_pos (Z.pos k) ltac:(lia)). split.
      - replace 52 with ((Z.pos (digits2_pos p) - 1) + Z.pos k) by lia.
        rewrite Z.pow_add_r by lia. apply Z.mul_le_mono_nonneg_r; lia.
      - replace 53 with (Z.pos (digits2_pos p) + Z.pos k) by lia.
        rewrite Z.pow_add_r by lia. apply Z.mul_lt_mono_pos_r; lia. }
    exists m. rewrite binary_round_aux_exact.
    + split; [reflexivity|]. split; [now rewrite <- Hk | exact Hmb].
    + now apply digits2_pos_unique.
    + lia.
Qed.

(** *** Division *)

Lemma div_eucl_div (a b : Z) : Z.div_eucl a b = (a / b, a mod b).
Proof. unfold Z.div, Z.modulo. now destruct (Z.div_eucl a b). Qed.

(** The quotient of two mantissas of 53 digits, before it is rounded. *)
Lemma SFdiv_core_53 (mx my : positive) (ex ey : Z) :
  Z.pos (digits2_pos mx) = 53 -> Z.pos (digits2_pos my) = 53 ->
  -1000 <= ex - ey <= 1000 ->
  SFdiv_core_binary prec emax (Z.pos mx) ex (Z.pos my) ey =
  ((Z.pos mx * 2 ^ 53) / Z.pos my, ex - ey - 53,
   new_location (Z.pos my) ((Z.pos mx * 2 ^ 53) mod Z.pos my)).
Proof.
  intros Hdx Hdy He. unfold SFdiv_core_binary. cbn [Zdigits2]. rewrite Hdx, Hdy.
  replace (fexp prec emax (53 + ex - (53 + ey))) with (ex - ey - 53)
    by (unfold fexp, SpecFloat.emin, prec, emax; lia).
  rewrite Z.min_l by lia.
  replace (ex - ey - (ex - ey - 53)) with 53 by lia.
  rewrite Z.shiftl_mul_pow2 by lia.
  rewrite div_eucl_div. reflexivity.
Qed.

(** A number in [(0, 1]] as division produces it: positive, with a mantissa
    of 53 digits, and either below one or equal to one. *)
Definition belowOne (x : spec_float) : Prop :=
  exists m e,
    x = S754_finite false m e /\
    2 ^ 52 <= Z.pos m < 2 ^ 53 /\
    -106 <= e /\
    (e <= -53 \/ (e = -52 /\ Z.pos m = 2 ^ 52)).

(** Dividing a number by a larger one gives such a number.  For mantissas
    of 53 digits the order of the numbers is the order of the pairs
    (exponent, mantissa). *)
Lemma SFdiv_below_one (mx my : positive) (ex ey : Z) :
  2 ^ 52 <= Z.pos mx < 2 ^ 53 -> 2 ^ 52 <= Z.pos my < 2 ^ 53 ->
  -52 <= ex <= 0 -> -52 <= ey <= 0 ->
  ex < ey \/ (ex = ey /\ Z.pos mx < Z.pos my) ->
  belowOne (SFdiv prec emax (S754_finite false mx ex) (S754_finite false my ey)).
Proof.
  intros Hmx Hmy Hex Hey Hlt.
  assert (Hdx : Z.pos (digits2_pos mx) = 53) by (apply digits2_pos_unique; lia).
  assert (Hdy : Z.pos (digits2_pos my) = 53) by (apply digits2_pos_unique; lia).
  unfold SFdiv. rewrite SFdiv_core_53 by lia. cbn [xorb].
  set (q := Z.pos mx * 2 ^ 53 / Z.pos my).
  assert (Hq : 2 ^ 52 <= q < 2 ^ 54).
  { subst q. change (2 ^ 52) with 4503599627370496 in *.
    change (2 ^ 53) with 9007199254740992 in *.
    change (2 ^ 54) with 18014398509481984. split.
    - apply Z.div_le_lower_bound; lia.
    - apply Z.div_lt_upper_bound; lia. }
  assert (Hq' : ex = ey -> q < 2 ^ 53).
  { intros E. subst q. change (2 ^ 52) with 4503599627370496 in *.
    change (2 ^ 53) with 9007199254740992 in *.
    apply Z.div_lt_upper_bound; [lia|].
    destruct Hlt as [?|[_ ?]]; lia. }
  assert (Hdq : Zdigits2 q = 53 \/ Zdigits2 q = 54).
  { destruct (Z.ltb_spec q (2 ^ 53)).
    - left. apply Zdigits2_unique; lia.
    - right. apply Zdigits2_unique; lia. }
  assert (Hdq' : ex = ey -> Zdigits2 q = 53).
  { intros E. apply Zdigits2_unique; [|lia]. specialize (Hq' E). lia. }
  destruct (binary_round_aux_shape false q (ex - ey - 53)
              (new_location (Z.pos my) ((Z.pos mx * 2 ^ 53) mod Z.pos my)))
    as (Hm1 & m & e & -> & Hcases); try lia.
  exists m, e. split; [reflexivity|].
  destruct Hcases as [(-> & Hm & Hm53)|(-> & Hm & Hcarry)].
  - split; [lia|]. split; [lia|]. left.
    destruct Hlt as [?|[E _]]; [lia|]. specialize (Hdq' E). lia.
  - split; [lia|]. split; [lia|].
    destruct Hlt as [?|[E _]].
    + destruct (Z.eq_dec (ex - ey - 53 + (Zdigits2 q - 53) + 1) (-52)); [right|left]; lia.
    + specialize (Hdq' E). right. lia.
Qed.

(** Dividing a number by itself gives one. *)
Lemma SFdiv_self (mx : positive) (ex : Z) :
  2 ^ 52 <= Z.pos mx < 2 ^ 53 ->
  SFdiv prec emax (S754_finite false mx ex) (S754_finite false mx ex) =
  S754_finite false (2 ^ 52) (-52).
Proof.
  intros Hmx.
  assert (Hdx : Z.pos (digits2_pos mx) = 53) by (apply digits2_pos_unique; lia).
  unfold SFdiv. rewrite SFdiv_core_53 by lia. cbn [xorb].
  rewrite Z.mul_comm, Z.div_mul, Z.mod_mul by lia.
  replace (ex - ex - 53) with (-53) by lia.
  replace (new_location (Z.pos mx) 0) with loc_Exact
    by (unfold new_location, new_location_even, new_location_odd; now destruct (Z.even (Z.pos mx))).
  reflexivity.
Qed.

(** *** Comparison with one and multiplication by 1.2 *)

Lemma SFleb_finite (m1 m2 : positive) (e1 e2 : Z) :
  e1 < e2 \/ (e1 = e2 /\ Z.pos m1 <= Z.pos m2) ->
  SFleb (S754_finite false m1 e1) (S754_finite false m2 e2) = true.
Proof.
  intros H. unfold SFleb, SFcompare.
  destruct (Z.compare_spec e1 e2) as [E|E|E]; try reflexivity; try lia.
  change (Pos.compare_cont Eq m1 m2) with (Pos.compare m1 m2).
  destruct (Pos.compare_spec m1 m2) as [Em|Em|Em]; try reflexivity. lia.
Qed.

Definition one64 : spec_float := S754_finite false 4503599627370496 (-52).
Definition boost64 : spec_float := S754_finite false 5404319552844595 (-52).

Lemma Prim2SF_one : Prim2SF 1 = one64.
Proof. vm_compute. reflexivity. Qed.

Lemma Prim2SF_boost : Prim2SF 1.2 = boost64.
Proof. vm_compute. reflexivity. Qed.

Lemma belowOne_le_one (x : spec_float) : belowOne x -> SFleb x one64 = true.
Proof.
  intros (m & e & -> & Hm & He & Hcases). apply SFleb_finite.
  change (Z.pos 4503599627370496) with (2 ^ 52). lia.
Qed.

Lemma belowOne_nonneg (x : spec_float) : belowOne x -> SFleb (S754_zero false) x = true.
Proof. intros (m & e & -> & _). reflexivity. Qed.

(** The product of a number in [(0, 1]] and 1.2 lies in [[0, 1.2]]. *)
Lemma SFmul_boost (x : spec_float) :
  belowOne x ->
  SFleb (SFmul prec emax x boost64) boost64 = true /\
  SFleb (S754_zero false) (SFmul prec emax x boost64) = true.
Proof.
  intros (m & e & -> & Hm & He & [Hlt|[-> Hone]]).
  - unfold SFmul, boost64. cbn [xorb].
    set (P := Z.pos (m * 5404319552844595)).
    assert (HP : P = Z.pos m * 5404319552844595) by reflexivity.
    change (2 ^ 52) with 4503599627370496 in *.
    change (2 ^ 53) with 9007199254740992 in *.
    assert (HPb : 2 ^ 104 <= P < 2 ^ 106).
    { change (2 ^ 104) with 20282409603651670423947251286016.
      change (2 ^ 106) with 81129638414606681695789005144064. lia. }
    assert (Hd : Zdigits2 P = 105 \/ Zdigits2 P = 106).
    { destruct (Z.ltb_spec P (2 ^ 105)).
      - left. apply Zdigits2_unique; [|lia]. change (105 - 1) with 104. lia.
      - right. apply Zdigits2_unique; [|lia]. change (106 - 1) with 105. lia. }
    destruct (binary_round_aux_shape false P (e + -52) loc_Exact)
      as (Hm1 & m' & e' & -> & Hcases); try lia.
    split; [|reflexivity].
    apply SFleb_finite.
    change (2 ^ 52) with 4503599627370496 in *.
    change (2 ^ 53) with 9007199254740992 in *.
    assert (Hmain : e + -52 + (Zdigits2 P - 53) = -52 ->
                    P / 2 ^ (Zdigits2 P - 53) < 5404319552844595).
    { intros E. assert (Zdigits2 P = 106) as -> by lia.
      change (2 ^ (106 - 53)) with 9007199254740992.
      apply Z.div_lt_upper_bound; lia. }
    destruct Hcases as [(-> & Hm' & Hm53)|(-> & Hm' & Hcarry)].
    + destruct (Z.eq_dec (e + -52 + (Zdigits2 P - 53)) (-52)) as [E|E].
      * right. specialize (Hmain E). lia.
      * left. lia.
    + destruct (Z.eq_dec (e + -52 + (Zdigits2 P - 53)) (-52)) as [E|E].
      * specialize (Hmain E). lia.
      * destruct (Z.eq_dec (e + -52 + (Zdigits2 P - 53) + 1) (-52)); [right|left]; lia.
  - assert (m = 4503599627370496%positive) as -> by (change (2 ^ 52) with 4503599627370496 in Hone; lia).
    split; reflexivity.
Qed.

(** *** Counts as numbers *)

Local Open Scope float_scope.

(** A count below [2 ^ 53] is converted as the specification converts the
    integer. *)
Lemma Prim2SF_numberOfNat (n : nat) :
  (Z.of_nat n < 2 ^ 53)%Z ->
  Prim2SF (numberOfNat n) = binary_normalize prec emax (Z.of_nat n) 0 false.
Proof.
  intros Hn. unfold numberOfNat. rewrite FloatAxioms.of_uint63_spec, Uint63.of_Z_spec.
  rewrite Z.mod_small; [reflexivity|].
  change Uint63.wB with (2 ^ 63)%Z. split; [lia|].
  eapply Z.lt_trans; [exact Hn | reflexivity].
Qed.

Lemma Zdigits2_mono (a b : Z) : (0 < a <= b)%Z -> (Zdigits2 a <= Zdigits2 b)%Z.
Proof.
  intros H. pose proof (Zdigits2_bounds a ltac:(lia)) as [Ha _].
  pose proof (Zdigits2_bounds b ltac:(lia)) as [_ Hb].
  assert (Zdigits2 a - 1 < Zdigits2 b)%Z; [|lia].
  apply (Z.pow_lt_mono_r_iff 2); try lia.
  destruct b as [|p|p]; try lia. cbn [Zdigits2]. lia.
Qed.

(** The quotient of two counts, the first at most the second, is zero or a
    number in [(0, 1]]. *)
Lemma quotient_of_counts (m n : nat) :
  (m <= n)%nat -> (1 <= n)%nat -> (Z.of_nat n < 2 ^ 53)%Z ->
  Prim2SF (numberOfNat m / numberOfNat n) = S754_zero false \/
  belowOne (Prim2SF (numberOfNat m / numberOfNat n)).
Proof.
  intros Hmn Hn Hbound.
  rewrite FloatAxioms.div_spec, !Prim2SF_numberOfNat by lia. unfold SF64div.
  destruct (binary_normalize_small (Z.of_nat n) ltac:(lia)) as (my & -> & Hmy & Hmyb).
  destruct m as [|m'].
  - left. reflexivity.
  - right. set (m := S m') in *.
    destruct (binary_normalize_small (Z.of_nat m) ltac:(lia)) as (mx & -> & Hmx & Hmxb).
    pose proof (Zdigits2_mono (Z.of_nat m) (Z.of_nat n) ltac:(lia)) as Hd.
    pose proof (Zdigits2_bounds (Z.of_nat m) ltac:(lia)) as Hbm.
    pose proof (Zdigits2_bounds (Z.of_nat n) ltac:(lia)) as Hbn.
    assert (Hdm : (1 <= Zdigits2 (Z.of_nat m) <= 53)%Z).
    { split.
      - destruct (Z.of_nat m) eqn:E; try lia. cbn [Zdigits2]. lia.
      - pose proof (Zdigits2_mono (Z.of_nat m) (2 ^ 53 - 1) ltac:(lia)) as H.
        exact H. }
    assert (Hdn : (1 <= Zdigits2 (Z.of_nat n) <= 53)%Z).
    { split; [lia|].
      pose proof (Zdigits2_mono (Z.of_nat n) (2 ^ 53 - 1) ltac:(lia)) as H.
      exact H. }
    destruct (Nat.eq_dec m n) as [E|E].
    + rewrite <- E in *.
      assert (mx = my) as <- by lia.
      rewrite SFdiv_self by lia.
      exists (2 ^ 52)%positive, (-52)%Z. repeat split; try reflexivity; try lia; discriminate.
    + apply SFdiv_below_one; try lia.
      destruct (Z.eq_dec (Zdigits2 (Z.of_nat m)) (Zdigits2 (Z.of_nat n))) as [Ed|Ed];
        [right|left; lia].
      split; [lia|]. rewrite Hmx, Hmy, Ed.
      apply Z.mul_lt_mono_pos_r; [apply pow2_pos|]; lia.
Qed.

(** *** The order of the numbers *)

(** Case analysis on the comparisons of exponents and mantissas that
    [SFcompare] makes. *)
Ltac sf_compare :=
  unfold SFltb, SFleb, SFcompare;
  repeat match goal with
         | |- context [Pos.compare_cont Eq ?a ?b] =>
             change (Pos.compare_cont Eq a b) with (Pos.compare a b)
         | H : context [Pos.compare_cont Eq ?a ?b] |- _ =>
             change (Pos.compare_cont Eq a b) with (Pos.compare a b) in H
         end;
  repeat match goal with
         | |- context [Z.compare ?a ?b] => destruct (Z.compare_spec a b)
         | H : context [Z.compare ?a ?b] |- _ => destruct (Z.compare_spec a b)
         | |- context [Pos.compare ?a ?b] => destruct (Pos.compare_spec a b)
         | H : context [Pos.compare ?a ?b] |- _ => destruct (Pos.compare_spec a b)
         end;
  cbn in *; try reflexivity; try discriminate; try lia.

Lemma SFltb_trans (a b c : spec_float) :
  SFltb a b = true -> SFltb b c = true -> SFltb a c = true.
Proof.
  destruct a as [[]|[]| |[] ma ea], b as [[]|[]| |[] mb eb], c as [[]|[]| |[] mc ec];
    try (intros; discriminate); try (intros; reflexivity); sf_compare.
Qed.

Lemma SFleb_ltb_trans (a b c : spec_float) :
  SFleb a b = true -> SFltb b c = true -> SFltb a c = true.
Proof.
  destruct a as [[]|[]| |[] ma ea], b as [[]|[]| |[] mb eb], c as [[]|[]| |[] mc ec];
    try (intros; discriminate); try (intros; reflexivity); sf_compare.
Qed.

Lemma SFleb_trans (a b c : spec_float) :
  SFleb a b = true -> SFleb b c = true -> SFleb a c = true.
Proof.
  destruct a as [[]|[]| |[] ma ea], b as [[]|[]| |[] mb eb], c as [[]|[]| |[] mc ec];
    try (intros; discriminate); try (intros; reflexivity); sf_compare.
Qed.

Lemma SFltb_total_pos (a b : spec_float) :
  SFltb (S754_zero false) a = true -> SFltb (S754_zero false) b = true ->
  SFltb b a = false -> SFleb a b = true.
Proof.
  destruct a as [[]|[]| |[] ma ea], b as [[]|[]| |[] mb eb];
    try (intros; discriminate); try (intros; reflexivity); sf_compare.
Qed.

Lemma ltb_trans (x y z : float) :
  (x <? y) = true -> (y <? z) = true -> (x <? z) = true.
Proof. rewrite !FloatAxioms.ltb_spec. apply SFltb_trans. Qed.

Lemma leb_ltb_trans (x y z : float) :
  (x <=? y) = true -> (y <? z) = true -> (x <? z) = true.
Proof. rewrite !FloatAxioms.ltb_spec, FloatAxioms.leb_spec. apply SFleb_ltb_trans. Qed.

Lemma leb_trans (x y z : float) :
  (x <=? y) = true -> (y <=? z) = true -> (x <=? z) = true.
Proof. rewrite !FloatAxioms.leb_spec. apply SFleb_trans. Qed.

(** Two positive numbers are comparable. *)
Lemma not_ltb_leb (x y : float) :
  (0 <? x) = true -> (0 <? y) = true -> (y <? x) = false -> (x <=? y) = true.
Proof. rewrite !FloatAxioms.ltb_spec, FloatAxioms.leb_spec. apply SFltb_total_pos. Qed.

(** The bounds of such a quotient and of its product with 1.2, stated with
    the comparisons of the primitive numbers. *)
Lemma quotient_bounds (m n : nat) :
  (m <= n)%nat -> (1 <= n)%nat -> (Z.of_nat n < 2 ^ 53)%Z ->
  let q := numberOfNat m / numberOfNat n in
  (0 <=? q) = true /\ (q <=? 1) = true /\
  (0 <=? q * 1.2) = true /\
  (q * 1.2 <=? 1.2) = true.
Proof.
  intros Hmn Hn Hb q.
  rewrite !FloatAxioms.leb_spec, FloatAxioms.mul_spec, Prim2SF_one, Prim2SF_boost. unfold SF64mul.
  change (Prim2SF 0) with (S754_zero false).
  destruct (quotient_of_counts m n Hmn Hn Hb) as [Hz|Hq]; fold q in Hz || fold q in Hq.
  - rewrite Hz. repeat split; reflexivity.
  - destruct (SFmul_boost _ Hq) as [H1 H2].
    repeat split; [now apply belowOne_nonneg | now apply belowOne_le_one | exact H2 | exact H1].
Qed.

End Binary64Facts.

(** ** Provider extraction *)

Module OpenRouterModelsFacts.
Import JsString JsNumber OpenRouterModels JsStringFacts.

Lemma PROVIDER_MAP_entries (slug display : string) :
  PROVIDER_MAP !! slug = Some display ->
  In (slug, display)
    [ ("openai", "OpenAI"); ("anthropic", "Anthropic"); ("google", "Google");
      ("meta-llama", "Meta"); ("mistralai", "Mistral"); ("cohere", "Cohere");
      ("deepseek", "DeepSeek"); ("perplexity", "Perplexity"); ("x-ai", "xAI");
      ("amazon", "Amazon"); ("microsoft", "Microsoft"); ("nvidia", "NVIDIA");
      ("qwen", "Qwen"); ("moonshotai", "Moonshot AI"); ("minimax", "MiniMax");
      ("z-ai", "Z-AI") ].
Proof.
  unfold PROVIDER_MAP. cbn [list_to_map foldr uncurry fst snd]. intros H.
  repeat (apply lookup_insert_Some in H;
          destruct H as [[<- <-]|[_ H]]; [simpl; tauto|]).
  rewrite lookup_empty in H. discriminate.
Qed.

Lemma PROVIDER_MAP_display_nonempty (slug display : string) :
  PROVIDER_MAP !! slug = Some display -> isEmpty display = false.
Proof.
  intros H. apply PROVIDER_MAP_entries in H. simpl in H.
  repeat (destruct H as [H|H]; [inversion H; reflexivity|]). contradiction.
Qed.

Lemma PROVIDER_MAP_slug_no_slash (slug display : string) :
  PROVIDER_MAP !! slug = Some display -> includes slug "/" = false.
Proof.
  intros H. apply PROVIDER_MAP_entries in H. simpl in H.
  repeat (destruct H as [H|H]; [inversion H; reflexivity|]). contradiction.
Qed.

Lemma capitalizeFirst_cons (c : ascii) (r : string) :
  capitalizeFirst (String c r) = String (upperChar c) r.
Proof. reflexivity. Qed.

(** The three branches of [extractProvider]. *)
Lemma extractProvider_short (modelId : string) :
  length (split "/" modelId) < 2 -> extractProvider modelId = ProviderName "Unknown".
Proof.
  intros H. unfold extractProvider.
  destruct (Nat.ltb_spec (length (split "/" modelId)) 2); [reflexivity | lia].
Qed.

Lemma extractProvider_known (modelId display : string) :
  2 <= length (split "/" modelId) ->
  PROVIDER_MAP !! toLowerCase (hd "" (split "/" modelId)) = Some display ->
  extractProvider modelId = ProviderName display.
Proof.
  intros Hlen Hget. unfold extractProvider.
  destruct (Nat.ltb_spec (length (split "/" modelId)) 2); [lia|].
  rewrite Hget, (PROVIDER_MAP_display_nonempty _ _ Hget). reflexivity.
Qed.

Lemma extractProvider_fallback (modelId : string) :
  2 <= length (split "/" modelId) ->
  PROVIDER_MAP !! toLowerCase (hd "" (split "/" modelId)) = None ->
  isInherited (toLowerCase (hd "" (split "/" modelId))) = false ->
  extractProvider modelId =
  ProviderName (capitalizeFirst (toLowerCase (hd "" (split "/" modelId)))).
Proof.
  intros Hlen Hget Hinh. unfold extractProvider.
  destruct (Nat.ltb_spec (length (split "/" modelId)) 2); [lia|].
  rewrite Hget, Hinh. reflexivity.
Qed.

(** C2, as the code has it: [extractProvider] returns ["Unknown"] when the id
    splits into fewer than two parts at ['/'], and the mapped display name,
    which is never empty, when the lower-cased first part is a key of the
    provider table.  Otherwise, unless that slug names a member the table
    inherits from [Object.prototype], it returns the slug with only its
    first character upper-cased: non-empty whenever the slug is non-empty,
    and, for a slug that begins with a character of ASCII, different from
    the raw lower-case slug exactly when that character is a letter a-z.
    Nothing is stated of the upper-cased form of a character outside
    ASCII, which [toUpperCase] may change as well. *)
Theorem extractProvider_cases (modelId : string) :
  let parts := split "/" modelId in
  let providerSlug := toLowerCase (hd "" parts) in
  (length parts < 2 -> extractProvider modelId = ProviderName "Unknown") /\
  (2 <= length parts ->
   forall display, PROVIDER_MAP !! providerSlug = Some display ->
     extractProvider modelId = ProviderName display /\ display <> "") /\
  (2 <= length parts ->
   PROVIDER_MAP !! providerSlug = None ->
   isInherited providerSlug = false ->
     extractProvider modelId = ProviderName (capitalizeFirst providerSlug) /\
     (providerSlug <> "" -> capitalizeFirst providerSlug <> "") /\
     (forall c r, providerSlug = String c r -> isAscii c = true ->
        capitalizeFirst providerSlug = String (upperChar c) r /\
        (capitalizeFirst providerSlug <> providerSlug <-> isLower c = true))).
Proof.
  cbv zeta. split; [apply extractProvider_short|]. split.
  - intros Hlen display Hget. split.
    + now apply extractProvider_known.
    + apply isEmpty_false. eapply PROVIDER_MAP_display_nonempty; eauto.
  - intros Hlen Hget Hinh.
    split; [now apply extractProvider_fallback|].
    destruct (toLowerCase (hd "" (split "/" modelId))) as [|c r].
    + split; [congruence | intros ? ? ?; discriminate].
    + rewrite capitalizeFirst_cons. split; [discriminate|].
      intros c' r' [= <- <-] _. split; [reflexivity|]. split.
      * intros Hne. destruct (isLower c) eqn:E; [reflexivity|].
        apply upperChar_fixed in E. rewrite E in Hne. now elim Hne.
      * intros Hlow Heq. injection Heq as Heq.
        apply upperChar_fixed in Heq. congruence.
Qed.

Lemma extractProvider_cases_witness :
  extractProvider "foobar/some-model" = ProviderName "Foobar" /\
  capitalizeFirst "foobar" <> "foobar" /\
  extractProvider "Anthropic/claude" = ProviderName "Anthropic" /\
  extractProvider "claude" = ProviderName "Unknown".
Proof.
  destruct (extractProvider_cases "foobar/some-model") as (_ & _ & Hfb).
  destruct (extractProvider_cases "Anthropic/claude") as (_ & Hkn & _).
  destruct (extractProvider_cases "claude") as (Hsh & _ & _).
  destruct (Hfb ltac:(vm_compute; lia) eq_refl eq_refl) as (Hres & _ & Hfirst).
  destruct (Hfirst "f"%char "oobar" eq_refl eq_refl) as [_ Hdiff].
  split; [exact Hres|]. split; [apply Hdiff; reflexivity|]. split.
  - apply (Hkn ltac:(vm_compute; lia) "Anthropic"). reflexivity.
  - apply Hsh. vm_compute. lia.
Defined.

(** C2 as stated does not hold: an id that begins with ['/'] has the empty
    slug and yields the empty string, and a slug that begins with a digit is
    returned as it is, in lower case. *)
Lemma extractProvider_empty_and_raw_slug :
  extractProvider "/gpt-4" = ProviderName "" /\
  extractProvider "01-ai/yi-large" = ProviderName "01-ai" /\
  toLowerCase "01-ai" = "01-ai" /\
  PROVIDER_MAP !! "01-ai" = None.
Proof. repeat split; vm_compute; reflexivity. Qed.

(** C7: an id without ['/'] yields ["Unknown"]; and when the part of the id
    before its first ['/'] is, up to the case of its letters, a key of the
    provider table, the result is exactly the display name mapped to that
    key. *)
Theorem extractProvider_unknown_and_table :
  (forall modelId, includes modelId "/" = false ->
     extractProvider modelId = ProviderName "Unknown") /\
  (forall slug display part rest,
     PROVIDER_MAP !! slug = Some display ->
     toLowerCase part = slug ->
     extractProvider (part +:+ "/" +:+ rest) = ProviderName display).
Proof.
  split.
  - intros modelId H. apply extractProvider_short.
    rewrite (split_char_absent _ _ H). simpl. lia.
  - intros slug display part rest Hget Hlow.
    assert (Hpart : includes part "/" = false).
    { rewrite <- includes_slash_toLowerCase, Hlow.
      eapply PROVIDER_MAP_slug_no_slash; eauto. }
    apply extractProvider_known.
    + now apply split_char_length.
    + change ("/" +:+ rest) with (String "/" rest).
      rewrite (split_char_first _ _ _ Hpart). simpl hd. now rewrite Hlow.
Qed.

Lemma extractProvider_unknown_and_table_witness :
  extractProvider "gpt-4o" = ProviderName "Unknown" /\
  extractProvider ("Meta-LLaMA" +:+ "/" +:+ "llama-3-70b") = ProviderName "Meta".
Proof.
  destruct extractProvider_unknown_and_table as [Hno Htab].
  split.
  - apply Hno. reflexivity.
  - apply (Htab "meta-llama"); reflexivity.
Defined.

(** ** Capability flags *)

Lemma existsb_includes_false (combined : string) (keywords : list string) :
  existsb (fun kw => includes combined kw) keywords = false <->
  forall kw, In kw keywords -> ~ occursIn kw combined.
Proof.
  split.
  - intros H kw Hin Hocc. apply includes_spec in Hocc.
    assert (existsb (fun kw => includes combined kw) keywords = true) as Ht
      by (apply existsb_exists; eauto).
    congruence.
  - intros H. destruct (existsb _ keywords) eqn:E; [|reflexivity].
    apply existsb_exists in E. destruct E as (kw & Hin & Hinc).
    apply includes_spec in Hinc. now elim (H kw Hin).
Qed.

Lemma supportsImageGeneration_names_only (modelId modelName : string) :
  supportsImageGeneration None (Some modelId) (Some modelName) None =
  existsb (fun kw => includes (toLowerCase modelName +:+ " " +:+ toLowerCase modelId) kw)
          imageGenKeywords.
Proof. reflexivity. Qed.

Lemma supportsSearchCapability_names_only (modelId modelName : string) :
  supportsSearchCapability (Some modelId) (Some modelName) None None =
  existsb (fun kw => includes (toLowerCase (modelId +:+ " " +:+ modelName)) kw)
          searchKeywords.
Proof. reflexivity. Qed.

(** C4, as the code has it: with only [modelId] and [modelName] given, the
    flags for vision, audio, tools and file input are false; the flag for
    image generation is false exactly when no image-generation keyword
    occurs in the lower-cased ["<name> <id>"], and the flag for search is
    false exactly when no search keyword occurs in the lower-cased
    ["<id> <name>"]. *)
Theorem flags_from_id_and_name (modelId modelName : string) :
  supportsVision None = false /\
  supportsAudio None = false /\
  supportsTools None = false /\
  supportsFileInput None None = false /\
  (supportsImageGeneration None (Some modelId) (Some modelName) None = false <->
   forall kw, In kw imageGenKeywords ->
     ~ occursIn kw (toLowerCase modelName +:+ " " +:+ toLowerCase modelId)) /\
  (supportsSearchCapability (Some modelId) (Some modelName) None None = false <->
   forall kw, In kw searchKeywords ->
     ~ occursIn kw (toLowerCase (modelId +:+ " " +:+ modelName))).
Proof.
  repeat (split; [reflexivity|]). split.
  - rewrite supportsImageGeneration_names_only. apply existsb_includes_false.
  - rewrite supportsSearchCapability_names_only. apply existsb_includes_false.
Qed.

Lemma flags_from_id_and_name_witness :
  supportsImageGeneration None (Some "openai/gpt-4o") (Some "GPT-4o") None = false /\
  supportsSearchCapability (Some "openai/gpt-4o") (Some "GPT-4o") None None = false.
Proof.
  destruct (flags_from_id_and_name "openai/gpt-4o" "GPT-4o") as (_ & _ & _ & _ & Himg & Hsearch).
  split.
  - apply Himg. apply existsb_includes_false. reflexivity.
  - apply Hsearch. apply existsb_includes_false. reflexivity.
Defined.

(** C4 as stated does not hold: the id and the name alone switch on the
    image-generation flag and the search flag when they contain a
    keyword. *)
Lemma flags_true_from_id_and_name :
  supportsImageGeneration None (Some "openai/dall-e-3") (Some "DALL-E 3") None = true /\
  supportsSearchCapability (Some "perplexity/sonar-pro") (Some "Sonar Pro") None None = true.
Proof. split; reflexivity. Qed.

(** ** Price conversion *)

Lemma tokenPriceToMillionPrice_product (s : string) :
  s <> "" -> PrimFloat.is_nan (parseFloat s) = false ->
  tokenPriceToMillionPrice (Some s) = (parseFloat s * 1000000)%float.
Proof.
  intros Hs Hnan. unfold tokenPriceToMillionPrice.
  apply isEmpty_false in Hs. now rewrite Hs, Hnan.
Qed.

(** C8, as the code has it: given a non-empty decimal string that
    [parseFloat] reads as the binary64 quotient [p / 1e6] (the string that
    JavaScript writes for a number is read back as that number), the
    conversion returns the binary64 product of that quotient and 1,000,000,
    rounded to the nearest binary64 value as every floating-point product
    is.  The round trip therefore returns [(p / 1e6) * 1e6] computed in
    binary64, which is [p] for some prices and not for others. *)
Theorem tokenPriceToMillionPrice_round_trip (p : float) (s : string) :
  s <> "" ->
  parseFloat s = (p / 1000000)%float ->
  PrimFloat.is_nan (p / 1000000) = false ->
  tokenPriceToMillionPrice (Some s) = ((p / 1000000) * 1000000)%float.
Proof.
  intros Hs Hparse Hnan. rewrite tokenPriceToMillionPrice_product.
  - now rewrite Hparse.
  - exact Hs.
  - now rewrite Hparse.
Qed.

Lemma tokenPriceToMillionPrice_round_trip_witness :
  tokenPriceToMillionPrice (Some "0.000005") = ((5 / 1000000) * 1000000)%float /\
  ((5 / 1000000) * 1000000 =? 5)%float = true.
Proof.
  split.
  - apply (tokenPriceToMillionPrice_round_trip 5 "0.000005").
    + discriminate.
    + vm_compute. reflexivity.
    + vm_compute. reflexivity.
  - vm_compute. reflexivity.
Defined.

(** C8 as stated does not hold: for the price 123 per million tokens the
    quotient [123 / 1e6] is written ["0.000123"], and the conversion of that
    string gives [123.00000000000001]. *)
Lemma tokenPriceToMillionPrice_round_trip_fails :
  parseFloat "0.000123" = (123 / 1000000)%float /\
  tokenPriceToMillionPrice (Some "0.000123") = 123.00000000000001%float /\
  (tokenPriceToMillionPrice (Some "0.000123") =? 123)%float = false.
Proof. repeat split; vm_compute; reflexivity. Qed.

End OpenRouterModelsFacts.

(** ** The benchmark parser *)

Module BenchmarksFacts.
Import JsString JsNumber JsValue Benchmarks JsStringFacts.

Lemma bind_Ret {A B : Type} (a : A) (f : A -> Outcome B) : (Ret a ≫= f) = f a.
Proof. reflexivity. Qed.

Lemma bind_Throw {A B : Type} (e : JsError) (f : A -> Outcome B) :
  (Throw e ≫= f) = Throw e.
Proof. reflexivity. Qed.

Lemma bind_Ret_inv {A B : Type} (m : Outcome A) (f : A -> Outcome B) (b : B) :
  (m ≫= f) = Ret b -> exists a, m = Ret a /\ f a = Ret b.
Proof. destruct m as [a|e]; [eauto | discriminate]. Qed.

(** Undoes the binds of a computation that is known to return. *)
Ltac unbind H :=
  repeat match type of H with
         | (_ ≫= _) = Ret _ =>
             let a := fresh "a" in
             let Ha := fresh "Ha" in
             apply bind_Ret_inv in H; destruct H as (a & Ha & H)
         end.

(** *** Alias resolution *)

Lemma getValue_first_defined (item : JsValue) (before : list string)
  (key : string) (after : list string) (v : JsValue) :
  Forall (fun k => getProp item k = Ret VUndefined) before ->
  getProp item key = Ret v ->
  v <> VUndefined ->
  getValue item (before ++ key :: after) = Ret v.
Proof.
  intros Hbefore Hkey Hdef. induction Hbefore as [|k before Hk _ IH].
  - cbn [app getValue]. rewrite Hkey, bind_Ret.
    destruct v; simpl; congruence.
  - cbn [app getValue]. rewrite Hk, bind_Ret. exact IH.
Qed.

Lemma getString_non_string (item : JsValue) (before : list string)
  (key : string) (after : list string) (v : JsValue) :
  Forall (fun k => getProp item k = Ret VUndefined) before ->
  getProp item key = Ret v ->
  v <> VUndefined ->
  (forall s, v <> VString s) ->
  getString item (before ++ key :: after) = Ret "".
Proof.
  intros Hbefore Hkey Hdef Hstr. unfold getString.
  rewrite (getValue_first_defined item before key after v Hbefore Hkey Hdef), bind_Ret.
  destruct v; try reflexivity. now elim (Hstr s).
Qed.

(** C10: alias resolution returns the value of the first alias whose
    property is not [undefined], whatever its type.  So when the first
    defined alias of the model name (for instance [model_name]) holds a
    value that is not a string, the model name resolves to the empty string,
    the aliases after it are not consulted, and the record is dropped. *)
Theorem alias_resolution_first_defined :
  (forall item before key after v,
     Forall (fun k => getProp item k = Ret VUndefined) before ->
     getProp item key = Ret v ->
     v <> VUndefined ->
     getValue item (before ++ key :: after) = Ret v) /\
  (forall item before key after v,
     modelNameAliases = (before ++ key :: after)%list ->
     Forall (fun k => getProp item k = Ret VUndefined) before ->
     getProp item key = Ret v ->
     v <> VUndefined ->
     (forall s, v <> VString s) ->
     getString item modelNameAliases = Ret "" /\
     parseItem item = Ret None /\
     parseBenchmarks (VArray [item]) = Ret []).
Proof.
  split; [exact getValue_first_defined|].
  intros item before key after v Hsplit Hbefore Hkey Hdef Hstr.
  assert (Hget : getString item modelNameAliases = Ret "").
  { rewrite Hsplit. eapply getString_non_string; eauto. }
  assert (Hitem : parseItem item = Ret None).
  { unfold parseItem. rewrite Hget, bind_Ret. reflexivity. }
  repeat split; [exact Hget | exact Hitem |].
  unfold parseBenchmarks. cbn [extractModelsArray mapItems].
  rewrite Hitem. reflexivity.
Qed.

Lemma alias_resolution_first_defined_witness :
  let item := VObject [ ("model_name", VNumber 42);
                        ("name", VString "GPT-4");
                        ("creator", VString "OpenAI") ] in
  let item' := VObject [ ("name", VNull);
                         ("display_name", VString "GPT-4");
                         ("creator", VString "OpenAI") ] in
  getValue item ["model"; "model_name"; "name"] = Ret (VNumber 42) /\
  parseBenchmarks (VArray [item]) = Ret [] /\
  parseBenchmarks (VArray [item']) = Ret [] /\
  parseBenchmarks (VArray [VObject [ ("name", VString "GPT-4");
                                     ("creator", VString "OpenAI") ]])
  = Ret [namedRecord "GPT-4" "OpenAI"].
Proof.
  destruct alias_resolution_first_defined as [Hfirst Hdrop].
  cbv zeta. split; [|split; [|split]].
  - apply (Hfirst _ ["model"] "model_name" ["name"] (VNumber 42)).
    + repeat constructor.
    + reflexivity.
    + discriminate.
  - apply (Hdrop _ [] "model_name" ["name"; "model"; "modelName"; "display_name"]
             (VNumber 42)).
    + reflexivity.
    + constructor.
    + reflexivity.
    + discriminate.
    + discriminate.
  - apply (Hdrop _ ["model_name"] "name" ["model"; "modelName"; "display_name"] VNull).
    + reflexivity.
    + repeat constructor.
    + reflexivity.
    + discriminate.
    + discriminate.
  - vm_compute. reflexivity.
Defined.

(** *** Envelopes *)

Lemma parseBenchmarks_no_models (raw : JsValue) :
  extractModelsArray raw = [] -> parseBenchmarks raw = Ret [].
Proof. intros H. unfold parseBenchmarks. now rewrite H. Qed.

Lemma parseBenchmarks_models (raw : JsValue) :
  parseBenchmarks raw = parseBenchmarks (VArray (extractModelsArray raw)).
Proof. reflexivity. Qed.

(** C6: the same list of items gives the same result whether it is passed
    bare or under [data], [models] or [results]; in an object the first of
    [data], [models], [results] that holds an array is the one used; and an
    input of no such shape gives the empty list, not an exception. *)
Theorem parseBenchmarks_envelopes :
  (forall L,
     parseBenchmarks (VObject [("data", VArray L)]) = parseBenchmarks (VArray L) /\
     parseBenchmarks (VObject [("models", VArray L)]) = parseBenchmarks (VArray L) /\
     parseBenchmarks (VObject [("results", VArray L)]) = parseBenchmarks (VArray L)) /\
  (forall obj L,
     lookupProp obj "data" = Some (VArray L) ->
     extractModelsArray (VObject obj) = L) /\
  (forall obj L,
     arrayOf (lookupProp obj "data") = None ->
     lookupProp obj "models" = Some (VArray L) ->
     extractModelsArray (VObject obj) = L) /\
  (forall obj L,
     arrayOf (lookupProp obj "data") = None ->
     arrayOf (lookupProp obj "models") = None ->
     lookupProp obj "results" = Some (VArray L) ->
     extractModelsArray (VObject obj) = L) /\
  (forall raw,
     (forall L, raw <> VArray L) ->
     (forall obj, raw = VObject obj ->
        arrayOf (lookupProp obj "data") = None /\
        arrayOf (lookupProp obj "models") = None /\
        arrayOf (lookupProp obj "results") = None) ->
     extractModelsArray raw = [] /\ parseBenchmarks raw = Ret []).
Proof.
  split; [intros L; repeat split; reflexivity|].
  split; [intros obj L H; simpl; now rewrite H|].
  split; [intros obj L H1 H2; simpl; now rewrite H1, H2|].
  split; [intros obj L H1 H2 H3; simpl; now rewrite H1, H2, H3|].
  intros raw Harr Hobj.
  assert (H : extractModelsArray raw = []).
  { destruct raw as [| | | | |L|obj]; try reflexivity.
    - now elim (Harr L).
    - destruct (Hobj obj eq_refl) as (H1 & H2 & H3). simpl. now rewrite H1, H2, H3. }
  split; [exact H | now apply parseBenchmarks_no_models].
Qed.

Lemma parseBenchmarks_envelopes_witness :
  let L := [VObject [("name", VString "GPT-4"); ("creator", VString "OpenAI")]] in
  extractModelsArray (VObject [("results", VArray []); ("data", VArray L)]) = L /\
  extractModelsArray (VObject [("data", VString "n/a"); ("models", VArray L)]) = L /\
  extractModelsArray (VObject [("data", VNull); ("results", VArray L)]) = L /\
  parseBenchmarks (VObject [("items", VArray L)]) = Ret [].
Proof.
  destruct parseBenchmarks_envelopes as (_ & Hdata & Hmodels & Hresults & Hnone).
  cbv zeta. split; [|split; [|split]].
  - apply Hdata. reflexivity.
  - apply Hmodels; reflexivity.
  - apply Hresults; reflexivity.
  - apply Hnone.
    + discriminate.
    + intros obj [= <-]. repeat split; reflexivity.
Defined.

(** *** Exceptions and dropped records *)

Lemma getValue_returns (item : JsValue) (keys : list string) :
  item <> VNull -> item <> VUndefined -> exists v, getValue item keys = Ret v.
Proof.
  intros Hnull Hundef. induction keys as [|k keys IH]; [now exists VUndefined|].
  cbn [getValue].
  assert (exists v, getProp item k = Ret v) as [v Hv]
    by (destruct item; simpl; eauto; congruence).
  rewrite Hv, bind_Ret. destruct (isUndefined v); eauto.
Qed.

Lemma getString_returns (item : JsValue) (keys : list string) :
  item <> VNull -> item <> VUndefined -> exists s, getString item keys = Ret s.
Proof.
  intros Hnull Hundef. destruct (getValue_returns item keys Hnull Hundef) as [v Hv].
  unfold getString. rewrite Hv, bind_Ret. eauto.
Qed.

Lemma getNumber_returns (item : JsValue) (keys : list string) :
  item <> VNull -> item <> VUndefined -> exists x, getNumber item keys = Ret x.
Proof.
  intros Hnull Hundef. destruct (getValue_returns item keys Hnull Hundef) as [v Hv].
  unfold getNumber. rewrite Hv, bind_Ret. eauto.
Qed.

Lemma orNumber_returns (a : option float) (b : Outcome (option float)) :
  (exists x, b = Ret x) -> exists x, orNumber a b = Ret x.
Proof. intros [x ->]. destruct a; simpl; eauto. Qed.

(** An item that is neither [null] nor [undefined] is parsed without an
    exception. *)
Lemma parseItem_returns (item : JsValue) :
  item <> VNull -> item <> VUndefined -> exists r, parseItem item = Ret r.
Proof.
  intros Hnull Hundef. unfold parseItem.
  destruct (getString_returns item modelNameAliases Hnull Hundef) as [mn ->].
  rewrite bind_Ret. destruct (isEmpty mn); [eauto|].
  cbv zeta. destruct (isEmpty (getNestedString item "model_creator.name")).
  - destruct (getString_returns item ["creator"; "provider"; "organization"] Hnull Hundef)
      as [cr ->].
    rewrite bind_Ret. destruct (isEmpty cr); [eauto|].
    repeat match goal with
           | |- context [orNumber ?a (getNumber item ?ks)] =>
               let x := fresh "x" in
               destruct (orNumber_returns a (getNumber item ks)
                           (getNumber_returns item ks Hnull Hundef)) as [x ->];
               rewrite bind_Ret
           | |- context [getNumber item ?ks] =>
               let x := fresh "x" in
               destruct (getNumber_returns item ks Hnull Hundef) as [x ->];
               rewrite bind_Ret
           end.
    eauto.
  - rewrite bind_Ret. destruct (isEmpty (getNestedString item "model_creator.name")); [eauto|].
    repeat match goal with
           | |- context [orNumber ?a (getNumber item ?ks)] =>
               let x := fresh "x" in
               destruct (orNumber_returns a (getNumber item ks)
                           (getNumber_returns item ks Hnull Hundef)) as [x ->];
               rewrite bind_Ret
           | |- context [getNumber item ?ks] =>
               let x := fresh "x" in
               destruct (getNumber_returns item ks Hnull Hundef) as [x ->];
               rewrite bind_Ret
           end.
    eauto.
Qed.

(** A record that is produced has a model name and a creator. *)
Lemma parseItem_record (item : JsValue) (b : ModelBenchmark) :
  parseItem item = Ret (Some b) -> modelName b <> "" /\ creator b <> "".
Proof.
  unfold parseItem. intros H.
  apply bind_Ret_inv in H. destruct H as (mn & _ & H).
  destruct (isEmpty mn) eqn:Emn; [discriminate|].
  apply bind_Ret_inv in H. destruct H as (cr & _ & H).
  destruct (isEmpty cr) eqn:Ecr; [discriminate|].
  unbind H. injection H as <-. simpl.
  split; now apply isEmpty_false.
Qed.

Lemma mapItems_records {A B : Type} (f : A -> Outcome (option B))
  (l : list A) (parsed : list (option B)) :
  mapItems f l = Ret parsed ->
  forall b, In b (dropNulls parsed) -> exists x, In x l /\ f x = Ret (Some b).
Proof.
  revert parsed. induction l as [|x l IH]; intros parsed H b Hb.
  - injection H as <-. contradiction.
  - cbn [mapItems] in H. unbind H. injection H as <-.
    destruct a as [y|]; cbn [dropNulls] in Hb.
    + destruct Hb as [<-|Hb].
      * exists x. split; [now left | assumption].
      * destruct (IH _ Ha0 b Hb) as (x' & Hin & Hx'). exists x'. split; [now right | assumption].
    + destruct (IH _ Ha0 b Hb) as (x' & Hin & Hx'). exists x'. split; [now right | assumption].
Qed.

Lemma mapItems_returns {A B : Type} (f : A -> Outcome B) (l : list A) :
  (forall x, In x l -> exists y, f x = Ret y) -> exists ys, mapItems f l = Ret ys.
Proof.
  induction l as [|x l IH]; intros H; [now exists []|].
  cbn [mapItems].
  destruct (H x (or_introl eq_refl)) as [y ->].
  destruct IH as [ys ->]; [intros x' Hx'; apply H; now right|].
  rewrite !bind_Ret. eauto.
Qed.

(** What holds of [parseBenchmarks] whenever it returns: every record has a
    model name and a creator, and comes from an item of the input. *)
Lemma parseBenchmarks_records (raw : JsValue) (records : list ModelBenchmark) :
  parseBenchmarks raw = Ret records ->
  forall b, In b records ->
    modelName b <> "" /\ creator b <> "" /\
    exists item, In item (extractModelsArray raw) /\ parseItem item = Ret (Some b).
Proof.
  unfold parseBenchmarks. intros H b Hb.
  destruct (extractModelsArray raw) as [|item items] eqn:E.
  - injection H as <-. contradiction.
  - unbind H. injection H as <-.
    destruct (mapItems_records _ _ _ Ha b Hb) as (x & Hin & Hx).
    destruct (parseItem_record _ _ Hx) as [Hn Hc]. eauto.
Qed.

(** [parseBenchmarks] returns when no item is [null] or [undefined]. *)
Lemma parseBenchmarks_returns (raw : JsValue) :
  (forall item, In item (extractModelsArray raw) ->
     item <> VNull /\ item <> VUndefined) ->
  exists records, parseBenchmarks raw = Ret records.
Proof.
  intros H. unfold parseBenchmarks.
  destruct (extractModelsArray raw) as [|item items] eqn:E; [now exists []|].
  destruct (mapItems_returns parseItem (item :: items)) as [parsed ->].
  - intros x Hx. destruct (H x Hx). now apply parseItem_returns.
  - rewrite bind_Ret. eauto.
Qed.

(** C5 does not hold of the code: an item that is [null] makes the first
    property read of [getValue] raise a [TypeError], which nothing catches,
    so the call ends with an exception instead of dropping the item. *)
Theorem parseBenchmarks_null_item_throws :
  parseBenchmarks (VArray [VNull]) = Throw TypeError /\
  parseBenchmarks
    (VObject [("data",
               VArray [ VObject [ ("model_name", VString "Claude Haiku 4.5");
                                  ("model_creator", VObject [("name", VString "Anthropic")]) ];
                        VNull ])]) = Throw TypeError.
Proof. split; reflexivity. Qed.

End BenchmarksFacts.

(** ** The benchmark matcher *)

Module MatcherFacts.
Import JsString JsNumber JsValue Benchmarks JsStringFacts Binary64Facts.

Local Open Scope float_scope.

Lemma orElse_empty (s : string) : orElse s "" = s.
Proof. now destruct s. Qed.

Lemma providerOf_eq (modelId : string) :
  providerOf modelId = toLowerCase (hd "" (split "/" modelId)).
Proof. apply orElse_empty. Qed.

(** C3, as the code has it: the provider string used for the creator boost
    is the lower-cased text before the first ['/'] of [modelId]; when
    [modelId] contains no ['/'] it is the whole of [modelId], lower-cased,
    so it is empty only when [modelId] is empty. *)
Theorem providerOf_spec :
  (forall pre post,
     includes pre "/" = false ->
     providerOf (pre +:+ "/" +:+ post) = toLowerCase pre) /\
  (forall modelId,
     includes modelId "/" = false ->
     providerOf modelId = toLowerCase modelId /\
     (providerOf modelId = "" <-> modelId = "")) /\
  (forall modelId modelName' benchmark benchmarks minMatchThreshold,
     matchBenchmark modelId modelName' (benchmark :: benchmarks) minMatchThreshold =
     fst (fold_left
            (matchStep (providerOf modelId) modelName'
               (default defaultThreshold minMatchThreshold))
            (benchmark :: benchmarks) (None, 0))).
Proof.
  split; [|split].
  - intros pre post H. rewrite providerOf_eq.
    change ("/" +:+ post) with (String "/" post).
    now rewrite (split_char_first _ _ _ H).
  - intros modelId H. rewrite providerOf_eq, (split_char_absent _ _ H).
    split; [reflexivity | apply toLowerCase_empty].
  - reflexivity.
Qed.

Lemma providerOf_spec_witness :
  providerOf ("OpenAI" +:+ "/" +:+ "gpt-4/turbo") = "openai" /\
  providerOf "GPT-4" = "gpt-4".
Proof.
  destruct providerOf_spec as (Hslash & Hnone & _). split.
  - rewrite Hslash; reflexivity.
  - destruct (Hnone "GPT-4") as [-> _]; reflexivity.
Defined.

(** C3 as stated does not hold: an id without ['/'] gives the whole id in
    lower case, not the empty string. *)
Lemma providerOf_without_slash_not_empty :
  includes "gpt-4" "/" = false /\ providerOf "gpt-4" = "gpt-4".
Proof. split; reflexivity. Qed.

(** *** The number of tokens *)

Lemma toLowerCase_length (s : string) :
  String.length (toLowerCase s) = String.length s.
Proof. induction s as [|c r IH]; simpl; congruence. Qed.

Lemma mapChars_length (f : ascii -> ascii) (s : string) :
  String.length (mapChars f s) = String.length s.
Proof. induction s as [|c r IH]; simpl; congruence. Qed.

Lemma collapseFrom_length (inRun : bool) (s : string) :
  (String.length (collapseFrom inRun s) <= String.length s)%nat.
Proof.
  revert inRun. induction s as [|c r IH]; intros inRun; simpl; [lia|].
  pose proof (IH true). pose proof (IH false).
  destruct (isSpace c); [destruct inRun|]; simpl; lia.
Qed.

Lemma trimStart_length (s : string) :
  (String.length (trimStart s) <= String.length s)%nat.
Proof.
  induction s as [|c r IH]; simpl; [lia|]. destruct (isSpace c); simpl; lia.
Qed.

Lemma trimEnd_length (s : string) :
  (String.length (trimEnd s) <= String.length s)%nat.
Proof.
  induction s as [|c r IH]; simpl; [lia|].
  destruct (trimEnd r); [destruct (isSpace c)|]; simpl in *; lia.
Qed.

Lemma normalizeForMatch_length (str : string) :
  (String.length (normalizeForMatch str) <= String.length str)%nat.
Proof.
  unfold normalizeForMatch, trim.
  pose proof (trimEnd_length
                (trimStart (collapseFrom false (mapChars replaceNonWord (toLowerCase str))))).
  pose proof (trimStart_length
                (collapseFrom false (mapChars replaceNonWord (toLowerCase str)))).
  pose proof (collapseFrom_length false (mapChars replaceNonWord (toLowerCase str))).
  rewrite mapChars_length, toLowerCase_length in *. lia.
Qed.

(** The number of characters in the pieces of a list. *)
Fixpoint totalLength (pieces : list string) : nat :=
  match pieces with
  | [] => 0
  | piece :: rest => String.length piece + totalLength rest
  end.

Lemma split_char_totalLength (c : ascii) (s : string) :
  (totalLength (split (String c "") s) <= String.length s)%nat.
Proof.
  induction s as [|x r IH]; [simpl; lia|].
  rewrite split_char_cons. destruct (Ascii.eqb c x).
  - simpl in *. lia.
  - destruct (split (String c "") r) as [|piece pieces]; simpl in *; lia.
Qed.

Lemma filter_long_count (keep : string -> bool) (pieces : list string) :
  (length (List.filter (fun t => (1 <? String.length t)%nat && keep t) pieces)
   <= totalLength pieces)%nat.
Proof.
  induction pieces as [|t rest IH]; simpl; [lia|].
  destruct (Nat.ltb_spec 1 (String.length t)); simpl; [|lia].
  destruct (keep t); simpl; lia.
Qed.

(** A name has at most as many tokens as characters. *)
Lemma extractModelTokens_length (name : string) :
  (length (extractModelTokens name) <= String.length name)%nat.
Proof.
  unfold extractModelTokens.
  pose proof (filter_long_count (fun token => negb (bool_decide (token ∈ stopWords)))
                (split " " (normalizeForMatch name))).
  pose proof (split_char_totalLength " " (normalizeForMatch name)).
  pose proof (normalizeForMatch_length name).
  lia.
Qed.

(** *** Bounds on similarity and score *)

Lemma countMatches_le (tokens1 tokens2 : list string) :
  (countMatches tokens1 tokens2 <= length tokens1)%nat.
Proof.
  induction tokens1 as [|t1 rest IH]; simpl; [lia|].
  destruct (existsb (tokensMatch t1) tokens2); lia.
Qed.

Lemma calculateSimilarity_bounds (name1 name2 : string) :
  withinMaxLength name1 -> withinMaxLength name2 ->
  (0 <=? calculateSimilarity name1 name2) = true /\
  (calculateSimilarity name1 name2 <=? 1) = true /\
  (0 <=? calculateSimilarity name1 name2 * 1.2) = true /\
  (calculateSimilarity name1 name2 * 1.2 <=? 1.2) = true.
Proof.
  intros H1 H2. unfold calculateSimilarity.
  pose proof (extractModelTokens_length name1) as L1.
  pose proof (extractModelTokens_length name2) as L2.
  destruct (extractModelTokens name1) as [|a tokens1] eqn:E1.
  { repeat split; vm_compute; reflexivity. }
  destruct (extractModelTokens name2) as [|b tokens2] eqn:E2.
  { repeat split; vm_compute; reflexivity. }
  apply quotient_bounds.
  - pose proof (countMatches_le (a :: tokens1) (b :: tokens2)). lia.
  - simpl. lia.
  - unfold withinMaxLength in H1, H2. lia.
Qed.

Lemma scoreOf_bounds (provider modelName' : string) (benchmark : ModelBenchmark) :
  withinMaxLength modelName' -> withinMaxLength (modelName benchmark) ->
  (0 <=? scoreOf provider modelName' benchmark) = true /\
  (scoreOf provider modelName' benchmark <=? 1.2) = true.
Proof.
  intros H1 H2. unfold scoreOf.
  destruct (calculateSimilarity_bounds modelName' (modelName benchmark) H1 H2)
    as (H0 & Hone & Hb0 & Hb).
  destruct (includes _ provider || includes provider _)%bool.
  - split; assumption.
  - split; [exact H0|].
    eapply leb_trans; [exact Hone | vm_compute; reflexivity].
Qed.

(** C9: the number of matched tokens is at most the number of tokens of the
    first name, hence at most the larger of the two token counts; for names
    of a length that a JavaScript string can have, the similarity lies
    between 0 and 1, and every score, with or without the creator boost,
    lies between 0 and 1.2. *)
Theorem similarity_and_score_bounds :
  (forall tokens1 tokens2,
     (countMatches tokens1 tokens2 <= length tokens1)%nat /\
     (countMatches tokens1 tokens2 <= Nat.max (length tokens1) (length tokens2))%nat) /\
  (forall name1 name2,
     withinMaxLength name1 -> withinMaxLength name2 ->
     (0 <=? calculateSimilarity name1 name2) = true /\
     (calculateSimilarity name1 name2 <=? 1) = true) /\
  (forall provider modelName' benchmark,
     withinMaxLength modelName' -> withinMaxLength (modelName benchmark) ->
     (0 <=? scoreOf provider modelName' benchmark) = true /\
     (scoreOf provider modelName' benchmark <=? 1.2) = true).
Proof.
  split; [|split].
  - intros tokens1 tokens2. pose proof (countMatches_le tokens1 tokens2). lia.
  - intros name1 name2 H1 H2.
    destruct (calculateSimilarity_bounds name1 name2 H1 H2) as (H0 & Hone & _).
    now split.
  - exact scoreOf_bounds.
Qed.

Lemma similarity_and_score_bounds_witness :
  let record := namedRecord "Claude 4.5 Haiku (Reasoning)" "Anthropic" in
  (calculateSimilarity "Claude Haiku 4.5" (modelName record) <=? 1) = true /\
  (scoreOf "anthropic" "Claude Haiku 4.5" record <=? 1.2) = true.
Proof.
  destruct similarity_and_score_bounds as (_ & Hsim & Hscore). cbv zeta. split.
  - apply Hsim; vm_compute; reflexivity.
  - apply Hscore; vm_compute; reflexivity.
Defined.

(** *** The best match *)

Section BestMatch.

Variables (provider modelName' : string) (threshold : float).

Let score : ModelBenchmark -> float := scoreOf provider modelName'.
Let step := matchStep provider modelName' threshold.
Let invariant := loopInvariant provider modelName' threshold.

Lemma matchStep_cases (best : option ModelBenchmark * float) (benchmark : ModelBenchmark) :
  ((snd best <? score benchmark) = true /\ (threshold <=? score benchmark) = true /\
   step best benchmark = (Some benchmark, score benchmark)) \/
  (((snd best <? score benchmark) = false \/ (threshold <=? score benchmark) = false) /\
   step best benchmark = best).
Proof.
  subst step score. unfold matchStep.
  destruct (snd best <? scoreOf provider modelName' benchmark);
    destruct (threshold <=? scoreOf provider modelName' benchmark); cbn [andb]; auto.
Qed.

Lemma loopInvariant_step (seen : list ModelBenchmark)
  (best : option ModelBenchmark * float) (benchmark : ModelBenchmark) :
  invariant seen best ->
  invariant (seen ++ [benchmark])%list (step best benchmark).
Proof.
  intros Hinv.
  destruct (matchStep_cases best benchmark) as [(Hlt & Hthr & ->)|(Hno & ->)];
    subst invariant; unfold loopInvariant in Hinv |- *;
    change (scoreOf provider modelName') with score in Hinv |- *;
    cbv zeta in Hinv |- *; cbn [fst snd];
    destruct best as [[b|] bestScore]; cbn [fst snd] in Hinv, Hlt || cbn [fst snd] in Hinv, Hno.
  - (* a kept record is replaced *)
    destruct Hinv as (-> & [Hpos Hb] & pre & post & -> & Hpre & Hpost).
    split; [reflexivity|]. split.
    { split; [eapply ltb_trans; eassumption | assumption]. }
    exists (pre ++ b :: post)%list, []. split; [reflexivity|]. split; [|contradiction].
    intros x Hx Hq. apply in_app_or in Hx. destruct Hx as [Hx|[<-|Hx]].
    + eapply ltb_trans; [now apply Hpre | assumption].
    + assumption.
    + eapply leb_ltb_trans; [now apply Hpost | assumption].
  - (* the first record is kept *)
    destruct Hinv as (-> & Hnone).
    split; [reflexivity|]. split; [now split|].
    exists seen, []. split; [reflexivity|]. split; [|contradiction].
    intros x Hx Hq. now elim (Hnone x Hx).
  - (* the kept record stays *)
    destruct Hinv as (-> & Hq & pre & post & -> & Hpre & Hpost).
    split; [reflexivity|]. split; [assumption|].
    exists pre, (post ++ [benchmark])%list. split; [now rewrite <- app_assoc|].
    split; [assumption|].
    intros x Hx [Hxpos Hxthr]. apply in_app_or in Hx. destruct Hx as [Hx|[<-|[]]].
    + apply Hpost; [assumption | now split].
    + destruct Hq as [Hbpos _]. apply not_ltb_leb; try assumption.
      destruct Hno as [Hno|Hno]; [exact Hno | congruence].
  - (* still no record kept *)
    destruct Hinv as (-> & Hnone). split; [reflexivity|].
    intros x Hx [Hxpos Hxthr]. apply in_app_or in Hx. destruct Hx as [Hx|[<-|[]]].
    + now apply (Hnone x Hx).
    + destruct Hno as [Hno|Hno]; congruence.
Qed.

Lemma loopInvariant_fold (rest seen : list ModelBenchmark)
  (best : option ModelBenchmark * float) :
  invariant seen best ->
  invariant (seen ++ rest)%list (fold_left step rest best).
Proof.
  revert seen best. induction rest as [|x rest IH]; intros seen best Hinv.
  - now rewrite app_nil_r.
  - cbn [fold_left]. change (x :: rest) with ([x] ++ rest)%list. rewrite app_assoc.
    apply IH. now apply loopInvariant_step.
Qed.

End BestMatch.

(** C1, as the code has it: on the empty list there is no match.  Otherwise
    the result is the first, in list order, of the records with the highest
    score among those whose score is positive and at or above the
    threshold: every such record before it scores strictly less, and every
    such record after it scores at most as much, so a later record with an
    equal score never replaces it.  There is no match exactly when no record
    has a positive score at or above the threshold. *)
Theorem matchBenchmark_best (modelId modelName' : string)
  (benchmarks : list ModelBenchmark) (minMatchThreshold : option float) :
  let threshold := default defaultThreshold minMatchThreshold in
  let score := scoreOf (providerOf modelId) modelName' in
  matchBenchmark modelId modelName' [] minMatchThreshold = None /\
  match matchBenchmark modelId modelName' benchmarks minMatchThreshold with
  | None =>
      forall x, In x benchmarks -> ~ qualifies threshold (score x)
  | Some b =>
      qualifies threshold (score b) /\
      exists pre post,
        benchmarks = (pre ++ b :: post)%list /\
        (forall x, In x pre -> qualifies threshold (score x) -> (score x <? score b) = true) /\
        (forall x, In x post -> qualifies threshold (score x) -> (score x <=? score b) = true)
  end.
Proof.
  cbv zeta. split; [reflexivity|].
  destruct benchmarks as [|x rest]; [intros x []|].
  unfold matchBenchmark.
  pose proof (loopInvariant_fold (providerOf modelId) modelName'
                (default defaultThreshold minMatchThreshold) (x :: rest) [] (None, 0)) as H.
  cbn [app] in H. unfold loopInvariant in H. cbv zeta in H.
  destruct (fst (fold_left _ (x :: rest) (None, 0))) as [b|].
  - destruct H as (_ & Hq & Hrest); [|now split].
    cbn [fst snd]. split; [reflexivity | intros ? []].
  - destruct H as (_ & H); [|exact H].
    cbn [fst snd]. split; [reflexivity | intros ? []].
Qed.

Lemma matchBenchmark_best_witness :
  let sonnet := namedRecord "Claude Sonnet 4.5" "Anthropic" in
  let haiku := namedRecord "Claude Haiku 4.5" "Anthropic" in
  let haiku' := namedRecord "Claude 4.5 Haiku" "Anthropic" in
  let score := scoreOf (providerOf "anthropic/claude-haiku-4.5") "Claude Haiku 4.5" in
  matchBenchmark "anthropic/claude-haiku-4.5" "Claude Haiku 4.5"
    [sonnet; haiku; haiku'] None = Some haiku /\
  (score haiku' =? score haiku) = true /\
  exists pre post,
    [sonnet; haiku; haiku'] = (pre ++ haiku :: post)%list /\
    (forall x, In x pre -> qualifies defaultThreshold (score x) ->
       (score x <? score haiku) = true) /\
    (forall x, In x post -> qualifies defaultThreshold (score x) ->
       (score x <=? score haiku) = true).
Proof.
  cbv zeta.
  pose proof (matchBenchmark_best "anthropic/claude-haiku-4.5" "Claude Haiku 4.5"
                [ namedRecord "Claude Sonnet 4.5" "Anthropic";
                  namedRecord "Claude Haiku 4.5" "Anthropic";
                  namedRecord "Claude 4.5 Haiku" "Anthropic" ] None) as [_ H].
  cbv zeta in H.
  assert (E : matchBenchmark "anthropic/claude-haiku-4.5" "Claude Haiku 4.5"
                [ namedRecord "Claude Sonnet 4.5" "Anthropic";
                  namedRecord "Claude Haiku 4.5" "Anthropic";
                  namedRecord "Claude 4.5 Haiku" "Anthropic" ] None
              = Some (namedRecord "Claude Haiku 4.5" "Anthropic"))
    by (vm_compute; reflexivity).
  rewrite E in H. destruct H as [_ H].
  split; [exact E|]. split; [vm_compute; reflexivity | exact H].
Defined.

(** C1 as stated does not hold: with the threshold 0, a record whose score
    is 0 is at or above the threshold, and yet it is not returned. *)
Lemma matchBenchmark_zero_score_unmatched :
  let gemini := namedRecord "Gemini Ultra" "Google" in
  scoreOf (providerOf "openai/gpt-4") "GPT-4" gemini = 0 /\
  (0 <=? scoreOf (providerOf "openai/gpt-4") "GPT-4" gemini) = true /\
  matchBenchmark "openai/gpt-4" "GPT-4" [gemini] (Some 0) = None.
Proof. cbv zeta. repeat split; vm_compute; reflexivity. Qed.

End MatcherFacts.

(** ** Case and separators *)

Module JsStringCaseFacts.
Import JsString JsStringFacts.

Lemma lowerChar_not_upper (c : ascii) : isUpper (lowerChar c) = false.
Proof. destruct c as [[] [] [] [] [] [] [] []]; reflexivity. Qed.

Lemma lowerChar_idem (c : ascii) : lowerChar (lowerChar c) = lowerChar c.
Proof. unfold lowerChar at 1. now rewrite lowerChar_not_upper. Qed.

Lemma lowerChar_upperChar (c : ascii) : lowerChar (upperChar c) = lowerChar c.
Proof. destruct c as [[] [] [] [] [] [] [] []]; reflexivity. Qed.

Lemma toLowerCase_idem (s : string) : toLowerCase (toLowerCase s) = toLowerCase s.
Proof.
  induction s as [|c r IH]; [reflexivity|]. cbn [toLowerCase]. now rewrite lowerChar_idem, IH.
Qed.

Lemma toLowerCase_toUpperCase (s : string) : toLowerCase (toUpperCase s) = toLowerCase s.
Proof.
  induction s as [|c r IH]; [reflexivity|].
  cbn [toLowerCase toUpperCase]. now rewrite lowerChar_upperChar, IH.
Qed.

Lemma toLowerCase_append (a b : string) :
  toLowerCase (a +:+ b) = toLowerCase a +:+ toLowerCase b.
Proof.
  induction a as [|c r IH]; [reflexivity|].
  rewrite append_cons. cbn [toLowerCase]. now rewrite append_cons, IH.
Qed.

(** No letter in upper case is left by [toLowerCase]. *)
Fixpoint noUpper (s : string) : bool :=
  match s with
  | EmptyString => true
  | String c r => negb (isUpper c) && noUpper r
  end.

Lemma noUpper_toLowerCase (s : string) : noUpper (toLowerCase s) = true.
Proof.
  induction s as [|c r IH]; [reflexivity|].
  cbn [toLowerCase noUpper]. now rewrite lowerChar_not_upper, IH.
Qed.

Lemma noUpper_fixed (s : string) : noUpper s = true -> toLowerCase s = s.
Proof.
  induction s as [|c r IH]; [reflexivity|]. cbn [noUpper toLowerCase].
  rewrite andb_true_iff, negb_true_iff. intros [Hc Hr].
  unfold lowerChar. now rewrite Hc, (IH Hr).
Qed.

Lemma includes_empty (s : string) : includes s "" = true.
Proof. now destruct s. Qed.

Lemma occursIn_trans (a b c : string) : occursIn a b -> occursIn b c -> occursIn a c.
Proof.
  intros (p1 & q1 & ->) (p2 & q2 & ->).
  exists (p2 +:+ p1), (q1 +:+ q2). now rewrite !append_assoc.
Qed.

Lemma includes_trans (s a b : string) :
  includes b a = true -> includes s b = true -> includes s a = true.
Proof. rewrite !includes_spec. apply occursIn_trans. Qed.

(** *** The separator [->] *)

Lemma arrow_lowerChar (c : ascii) :
  Ascii.eqb "-" (lowerChar c) = Ascii.eqb "-" c /\
  Ascii.eqb ">" (lowerChar c) = Ascii.eqb ">" c.
Proof. destruct c as [[] [] [] [] [] [] [] []]; split; reflexivity. Qed.

Lemma startsWith_arrow_toLowerCase (s : string) :
  startsWith (toLowerCase s) "->" = startsWith s "->".
Proof.
  destruct s as [|c [|d r]]; [reflexivity| |]; cbn [toLowerCase startsWith];
    destruct (arrow_lowerChar c) as [-> _]; [reflexivity|].
  destruct (arrow_lowerChar d) as [_ ->]. reflexivity.
Qed.

Lemma includes_arrow_toLowerCase (s : string) :
  includes (toLowerCase s) "->" = includes s "->".
Proof.
  induction s as [|c r IH]; [reflexivity|].
  change (includes (toLowerCase (String c r)) "->")
    with (startsWith (toLowerCase (String c r)) "->" || includes (toLowerCase r) "->").
  change (includes (String c r) "->")
    with (startsWith (String c r) "->" || includes r "->").
  now rewrite startsWith_arrow_toLowerCase, IH.
Qed.

Lemma split_arrow_cons (x : ascii) (r : string) :
  startsWith (String x r) "->" = false ->
  split "->" (String x r) =
  match split "->" r with
  | piece :: pieces => String x piece :: pieces
  | [] => [String x ""]
  end.
Proof. unfold split. cbn [split_from]. now intros ->. Qed.

Lemma split_arrow_absent (s : string) :
  includes s "->" = false -> split "->" s = [s].
Proof.
  induction s as [|x r IH]; [reflexivity|].
  change (includes (String x r) "->")
    with (startsWith (String x r) "->" || includes r "->").
  rewrite orb_false_iff. intros [Hx Hr].
  now rewrite (split_arrow_cons _ _ Hx), (IH Hr).
Qed.

(** The first piece ends at the first occurrence of the separator. *)
Lemma split_arrow_first (pre post : string) :
  includes pre "->" = false ->
  split "->" (pre +:+ "->" +:+ post) = pre :: split "->" post.
Proof.
  induction pre as [|x r IH]; intros H.
  - reflexivity.
  - change (includes (String x r) "->")
      with (startsWith (String x r) "->" || includes r "->") in H.
    rewrite orb_false_iff in H. destruct H as [Hx Hr].
    rewrite append_cons, split_arrow_cons, (IH Hr); [reflexivity|].
    cbn [startsWith] in Hx |- *. destruct (Ascii.eqb "-" x); [|reflexivity].
    destruct r as [|y r']; [reflexivity|].
    rewrite append_cons. exact Hx.
Qed.

End JsStringCaseFacts.

(** ** Numbers that are not [NaN] *)

Module Binary64NanFacts.
Import JsNumber Binary64Facts.

Local Open Scope Z_scope.

Lemma shr_nonneg (m : Z) (l : location) (e n : Z) :
  0 <= m -> 0 <= shr_m (fst (shr (shr_record_of_loc m l) e n)).
Proof.
  intros Hm. unfold shr. destruct n as [|p|p]; cbn [fst]; rewrite ?shr_m_of_loc; try lia.
  rewrite iter_pos_shr_1_m, shr_m_of_loc by (rewrite shr_m_of_loc; lia).
  apply Z.div_pos; [lia | apply pow2_pos; lia].
Qed.

(** Rounding a non-negative mantissa gives zero, a finite number or an
    infinity. *)
Lemma binary_round_aux_not_nan (sx : bool) (mx ex : Z) (lx : location) :
  0 <= mx -> binary_round_aux prec emax sx mx ex lx <> S754_nan.
Proof.
  intros Hmx. unfold binary_round_aux, shr_fexp.
  pose proof (shr_nonneg mx lx ex (fexp prec emax (Zdigits2 mx + ex) - ex) Hmx) as H1.
  destruct (shr (shr_record_of_loc mx lx) ex _) as [mrs' e'].
  cbn [fst] in H1.
  pose proof (round_nearest_even_bounds (shr_m mrs') (loc_of_shr_record mrs')) as Hr.
  set (m2 := round_nearest_even (shr_m mrs') (loc_of_shr_record mrs')) in *.
  pose proof (shr_nonneg m2 loc_Exact e' (fexp prec emax (Zdigits2 m2 + e') - e')
                ltac:(lia)) as H2.
  destruct (shr (shr_record_of_loc m2 loc_Exact) e' _) as [mrs'' e''].
  cbn [fst] in H2.
  destruct (shr_m mrs'') as [|p|p]; [discriminate| |lia].
  destruct (e'' <=? emax - prec); discriminate.
Qed.

Lemma SFmul_not_nan (x : spec_float) (sy : bool) (my : positive) (ey : Z) :
  x <> S754_nan -> SFmul prec emax x (S754_finite sy my ey) <> S754_nan.
Proof.
  intros Hx. destruct x as [sx|sx| |sx mx ex]; cbn [SFmul]; try discriminate; try congruence.
  apply binary_round_aux_not_nan. lia.
Qed.

Lemma SFeqb_refl (x : spec_float) : x <> S754_nan -> SFeqb x x = true.
Proof.
  intros Hx. destruct x as [[]|[]| |[] m e]; try reflexivity; try congruence;
    unfold SFeqb, SFcompare; rewrite Z.compare_refl;
    change (Pos.compare_cont Eq m m) with (Pos.compare m m);
    rewrite Pos.compare_refl; reflexivity.
Qed.

Lemma is_nan_false (x : float) : Prim2SF x <> S754_nan -> PrimFloat.is_nan x = false.
Proof.
  intros Hx. unfold PrimFloat.is_nan. now rewrite FloatAxioms.eqb_spec, SFeqb_refl.
Qed.

Lemma is_nan_false_inv (x : float) : PrimFloat.is_nan x = false -> Prim2SF x <> S754_nan.
Proof.
  unfold PrimFloat.is_nan. rewrite FloatAxioms.eqb_spec. intros H E. rewrite E in H. discriminate.
Qed.

(** The product of a number and one million is a number. *)
Lemma mul_million_not_nan (x : float) :
  PrimFloat.is_nan x = false -> PrimFloat.is_nan (x * 1000000)%float = false.
Proof.
  intros Hx. apply is_nan_false. rewrite FloatAxioms.mul_spec.
  change (Prim2SF 1000000) with (S754_finite false 8589934592000000 (-33)).
  apply SFmul_not_nan. now apply is_nan_false_inv.
Qed.

End Binary64NanFacts.

(** ** Normalized models and capability flags *)

Module ModelFlagsFacts.
Import JsString JsNumber OpenRouterModels JsStringFacts JsStringCaseFacts Binary64NanFacts.

(** *** Modality *)

Lemma normalizeModality_nonempty (modality : option string) :
  normalizeModality modality <> "".
Proof.
  destruct modality as [[|c r]|]; cbn [normalizeModality isEmpty toLowerCase]; discriminate.
Qed.

Lemma normalizeModality_lower (modality : option string) :
  toLowerCase (normalizeModality modality) = normalizeModality modality.
Proof.
  destruct modality as [[|c r]|]; cbn [normalizeModality isEmpty]; try reflexivity.
  apply toLowerCase_idem.
Qed.

(** X1: the normalized modality is never empty, holds no letter in upper
    case, and normalizing it again changes nothing. *)
Theorem normalizeModality_normal_form (modality : option string) :
  normalizeModality modality <> "" /\
  noUpper (normalizeModality modality) = true /\
  normalizeModality (Some (normalizeModality modality)) = normalizeModality modality.
Proof.
  split; [apply normalizeModality_nonempty|]. split.
  - rewrite <- normalizeModality_lower. apply noUpper_toLowerCase.
  - pose proof (normalizeModality_nonempty modality) as Hne.
    apply isEmpty_false in Hne.
    unfold normalizeModality at 1. rewrite Hne. apply normalizeModality_lower.
Qed.

(** *** Prices *)

Lemma tokenPriceToMillionPrice_is_number (pricePerToken : option string) :
  PrimFloat.is_nan (tokenPriceToMillionPrice pricePerToken) = false.
Proof.
  unfold tokenPriceToMillionPrice.
  destruct pricePerToken as [s|]; [|reflexivity].
  destruct (isEmpty s); [reflexivity|].
  destruct (PrimFloat.is_nan (parseFloat s)) eqn:E; [reflexivity|].
  now apply mul_million_not_nan.
Qed.

(** X2: a price per million tokens is never [NaN]; it is [0] when the
    price per token is absent, empty, or not read as a number by
    [parseFloat], and the binary64 product with one million otherwise. *)
Theorem tokenPriceToMillionPrice_never_nan (pricePerToken : option string) :
  PrimFloat.is_nan (tokenPriceToMillionPrice pricePerToken) = false /\
  match pricePerToken with
  | None => tokenPriceToMillionPrice pricePerToken = 0%float
  | Some s =>
      if isEmpty s || PrimFloat.is_nan (parseFloat s)
      then tokenPriceToMillionPrice pricePerToken = 0%float
      else tokenPriceToMillionPrice pricePerToken = (parseFloat s * 1000000)%float
  end.
Proof.
  split; [apply tokenPriceToMillionPrice_is_number|].
  destruct pricePerToken as [s|]; [|reflexivity].
  unfold tokenPriceToMillionPrice.
  destruct (isEmpty s); [reflexivity|]. cbn [orb].
  destruct (PrimFloat.is_nan (parseFloat s)); reflexivity.
Qed.

(** *** Flags read from the modality *)

Lemma modalityPart_input (inp out : string) :
  includes inp "->" = false ->
  modalityPart 0 (Some (inp +:+ "->" +:+ out)) = inp.
Proof. intros H. unfold modalityPart. now rewrite (split_arrow_first _ _ H). Qed.

Lemma modalityPart_whole (modality : string) :
  includes modality "->" = false ->
  modalityPart 0 (Some modality) = modality /\ modalityPart 1 (Some modality) = "".
Proof. intros H. unfold modalityPart. now rewrite (split_arrow_absent _ H). Qed.

(** X3: [supportsVision] and [supportsAudio] look at the text before the
    first [->] only: what follows the arrow never changes them, and a
    modality without an arrow is an input side as a whole. *)
Theorem vision_and_audio_input_side (inp : string) :
  includes inp "->" = false ->
  (forall out,
     supportsVision (Some (inp +:+ "->" +:+ out)) = includes inp "image" /\
     supportsAudio (Some (inp +:+ "->" +:+ out)) = includes inp "audio") /\
  supportsVision (Some inp) = includes inp "image" /\
  supportsAudio (Some inp) = includes inp "audio".
Proof.
  intros H. split.
  - intros out. unfold supportsVision, supportsAudio.
    now rewrite (modalityPart_input _ _ H).
  - unfold supportsVision, supportsAudio.
    destruct (modalityPart_whole _ H) as [-> _]. now split.
Qed.

Lemma vision_and_audio_input_side_witness :
  supportsVision (Some ("text+image" +:+ "->" +:+ "text")) = true /\
  supportsVision (Some ("text" +:+ "->" +:+ "image")) = false /\
  supportsAudio (Some "audio") = true.
Proof.
  split; [|split].
  - destruct (vision_and_audio_input_side "text+image" eq_refl) as [H _].
    destruct (H "text") as [-> _]. reflexivity.
  - destruct (vision_and_audio_input_side "text" eq_refl) as [H _].
    destruct (H "image") as [-> _]. reflexivity.
  - destruct (vision_and_audio_input_side "audio" eq_refl) as (_ & _ & ->). reflexivity.
Defined.

(** *** Flags read from the supported parameters *)

Lemma paramsInclude_iff (supportedParams : option (list string)) (p : string) :
  paramsInclude supportedParams p = true <-> exists l, supportedParams = Some l /\ In p l.
Proof.
  destruct supportedParams as [l|]; cbn [paramsInclude].
  - rewrite existsb_exists. split.
    + intros (x & Hin & Heq). apply String.eqb_eq in Heq. subst x. eauto.
    + intros (l' & [= <-] & Hin). exists p. split; [exact Hin | apply String.eqb_refl].
  - split; [discriminate | intros (l & H & _); discriminate].
Qed.

(** X23: [supportsTools] holds exactly when ["tools"] is an element of the
    supported parameters, letter for letter; [supportsFileInput] holds
    exactly when the input side of the modality contains ["image"] or
    ["file"] is an element of the supported parameters.  The output side
    of the modality never counts. *)
Theorem tools_and_file_input (inp out : string) (supportedParams : option (list string)) :
  includes inp "->" = false ->
  (supportsTools supportedParams = true <->
   exists l, supportedParams = Some l /\ In "tools" l) /\
  (supportsFileInput (Some (inp +:+ "->" +:+ out)) supportedParams = true <->
   includes inp "image" = true \/ exists l, supportedParams = Some l /\ In "file" l).
Proof.
  intros H. split.
  - apply paramsInclude_iff.
  - unfold supportsFileInput, supportsVision.
    rewrite (modalityPart_input _ _ H), orb_true_iff, paramsInclude_iff. reflexivity.
Qed.

Lemma tools_and_file_input_witness :
  supportsFileInput (Some ("text" +:+ "->" +:+ "image+file")) (Some ["tools"; "File"]) = false /\
  supportsTools (Some ["tools"; "File"]) = true.
Proof.
  destruct (tools_and_file_input "text" "image+file" (Some ["tools"; "File"]) eq_refl)
    as [Htools Hfile].
  split.
  - destruct (supportsFileInput (Some ("text" +:+ "->" +:+ "image+file"))
                (Some ["tools"; "File"])) eqn:E; [|reflexivity].
    destruct Hfile as [Hfile _]. destruct (Hfile eq_refl) as [Hi|(l & [= <-] & Hin)].
    + discriminate Hi.
    + cbn [In] in Hin. destruct Hin as [Hin|[Hin|[]]]; discriminate Hin.
  - apply Htools. exists ["tools"; "File"]. split; [reflexivity | now left].
Defined.

(** *** Image generation *)

Lemma existsb_map {A B : Type} (f : A -> B) (p : B -> bool) (l : list A) :
  existsb p (map f l) = existsb (fun x => p (f x)) l.
Proof. induction l as [|x l IH]; [reflexivity|]. cbn [map existsb]. now rewrite IH. Qed.

Lemma existsb_pointwise {A : Type} (p q : A -> bool) (l : list A) :
  (forall x, p x = q x) -> existsb p l = existsb q l.
Proof.
  intros H. induction l as [|x l IH]; [reflexivity|]. cbn [existsb]. now rewrite H, IH.
Qed.

(** The three tests made on a capability amount to one: both
    ["image-generation"] and ["images"] contain ["image"]. *)
Lemma capability_test_image (c : string) :
  includes c "image-generation" || includes c "image" || String.eqb c "images"
  = includes c "image".
Proof.
  destruct (includes c "image") eqn:Ei.
  - now rewrite orb_true_r.
  - rewrite orb_false_r.
    destruct (includes c "image-generation") eqn:Eg.
    + rewrite <- Ei. symmetry. now apply (includes_trans c "image" "image-generation").
    + destruct (String.eqb_spec c "images") as [->|]; [discriminate|reflexivity].
Qed.

Lemma capabilityHit_eq (capabilities : option (list string)) :
  match capabilities with
  | Some ((_ :: _) as caps) =>
      existsb (fun c => includes c "image-generation" || includes c "image"
                        || String.eqb c "images") (map toLowerCase caps)
  | _ => false
  end = existsb (fun c => includes (toLowerCase c) "image") (default [] capabilities).
Proof.
  destruct capabilities as [[|c caps]|]; try reflexivity.
  change (default [] (Some (c :: caps))) with (c :: caps).
  rewrite existsb_map.
  apply (existsb_pointwise _ (fun c => includes (toLowerCase c) "image") (c :: caps)).
  intros x. apply capability_test_image.
Qed.

(** X4: the three steps of [supportsImageGeneration] amount to a
    disjunction: a capability that contains ["image"] in any case of the
    letters, an output side of the modality that contains ["image"], or a
    keyword in the lower-cased name and id.  The separate tests for
    ["image-generation"] and ["images"] add nothing to the first. *)
Theorem supportsImageGeneration_iff
  (modality modelId modelName : option string) (capabilities : option (list string)) :
  supportsImageGeneration modality modelId modelName capabilities = true <->
  (exists c, In c (default [] capabilities) /\ includes (toLowerCase c) "image" = true) \/
  includes (modalityPart 1 modality) "image" = true \/
  (exists kw, In kw imageGenKeywords /\
     includes (toLowerCase (default "" modelName) +:+ " " +:+ toLowerCase (default "" modelId))
       kw = true).
Proof.
  unfold supportsImageGeneration. rewrite capabilityHit_eq. cbv zeta.
  destruct (existsb (fun c => includes (toLowerCase c) "image") (default [] capabilities)) eqn:Ec.
  - split; [intros _|reflexivity]. left. now apply existsb_exists in Ec.
  - destruct (includes (modalityPart 1 modality) "image") eqn:Em.
    + split; [intros _|reflexivity]. right. now left.
    + rewrite existsb_exists. split.
      * intros H. right. now right.
      * intros [H|[H|H]]; [|discriminate|exact H].
        apply existsb_exists in H. congruence.
Qed.

(** *** Search *)

(** X5: [supportsSearchCapability] treats the capabilities and the
    supported parameters alike: exchanging the two lists does not change
    the flag. *)
Theorem supportsSearchCapability_lists_exchange
  (modelId modelName : option string) (capabilities supportedParams : option (list string)) :
  supportsSearchCapability modelId modelName capabilities supportedParams =
  supportsSearchCapability modelId modelName supportedParams capabilities.
Proof.
  unfold supportsSearchCapability. cbv zeta.
  set (test1 := fun c => includes c "search" || includes c "web"
                         || includes c "retrieval" || includes c "browse").
  set (test2 := fun p => includes p "search" || includes p "web"
                         || includes p "browse" || includes p "retrieval").
  assert (E : forall l, existsb test2 l = existsb test1 l).
  { intros l. apply existsb_pointwise. intros x. subst test1 test2. cbv beta.
    destruct (includes x "search"), (includes x "web"),
      (includes x "retrieval"), (includes x "browse"); reflexivity. }
  rewrite !E.
  destruct (existsb test1 (map toLowerCase (default [] capabilities))),
    (existsb test1 (map toLowerCase (default [] supportedParams))); reflexivity.
Qed.

(** *** Provider *)

Lemma extractProvider_of_slug (pre post : string) :
  includes pre "/" = false ->
  extractProvider (pre +:+ "/" +:+ post) =
  match PROVIDER_MAP !! toLowerCase pre with
  | Some name => if isEmpty name then ProviderName (capitalizeFirst (toLowerCase pre))
                 else ProviderName name
  | None =>
      if isInherited (toLowerCase pre) then PrototypeMember (toLowerCase pre)
      else ProviderName (capitalizeFirst (toLowerCase pre))
  end.
Proof.
  intros H. unfold extractProvider.
  change ("/" +:+ post) with (String "/" post).
  pose proof (split_char_length "/" pre post H) as Hlen.
  rewrite (split_char_first _ _ _ H) in Hlen |- *.
  destruct (Nat.ltb_spec (length (pre :: split "/" post)) 2); [lia|]. reflexivity.
Qed.

(** X6: of a model id, [extractProvider] reads the text before the first
    ['/'] only, and without regard to the case of its letters. *)
Theorem extractProvider_first_part (pre pre' post post' : string) :
  includes pre "/" = false -> includes pre' "/" = false ->
  toLowerCase pre = toLowerCase pre' ->
  extractProvider (pre +:+ "/" +:+ post) = extractProvider (pre' +:+ "/" +:+ post').
Proof.
  intros H H' E. rewrite (extractProvider_of_slug _ _ H), (extractProvider_of_slug _ _ H').
  now rewrite E.
Qed.

Lemma extractProvider_first_part_witness :
  extractProvider ("OpenAI" +:+ "/" +:+ "gpt-4") =
  extractProvider ("openai" +:+ "/" +:+ "o1/preview").
Proof. apply extractProvider_first_part; reflexivity. Defined.

Lemma inherited_lower_case (slug : string) :
  noUpper slug = true -> isInherited slug = true ->
  slug = "constructor" \/ slug = "__proto__".
Proof.
  intros Hlow Hi. unfold isInherited in Hi. apply existsb_exists in Hi.
  destruct Hi as (member & Hin & Heq). apply String.eqb_eq in Heq. subst member.
  cbn [objectPrototypeMembers In] in Hin.
  repeat (destruct Hin as [Hin|Hin];
          [rewrite <- Hin in Hlow |- *; first [discriminate Hlow | auto]|]).
  contradiction.
Qed.

Lemma member_slug (slug : string) :
  slug = "constructor" \/ slug = "__proto__" ->
  PROVIDER_MAP !! slug = None /\ isInherited slug = true.
Proof. intros [->| ->]; split; vm_compute; reflexivity. Qed.

(** X7: [extractProvider] returns a member that the table inherits from
    [Object.prototype], and not a string, exactly when the id has at least
    two parts and its lower-cased first part is [constructor] or
    [__proto__]; the member returned is then the one of that name.  For
    every other id it returns a provider name.  The other inherited
    members have a letter in upper case, which no lower-cased part has. *)
Theorem extractProvider_name_or_member (modelId : string) :
  let parts := split "/" modelId in
  let providerSlug := toLowerCase (hd "" parts) in
  (forall member,
     extractProvider modelId = PrototypeMember member <->
     (2 <= length parts)%nat /\ providerSlug = member /\
     (member = "constructor" \/ member = "__proto__")) /\
  ((exists name, extractProvider modelId = ProviderName name) <->
   ~ ((2 <= length parts)%nat /\
      (providerSlug = "constructor" \/ providerSlug = "__proto__"))).
Proof.
  cbv zeta.
  assert (Hmember : forall member,
     extractProvider modelId = PrototypeMember member <->
     (2 <= length (split "/" modelId))%nat /\
     toLowerCase (hd "" (split "/" modelId)) = member /\
     (member = "constructor" \/ member = "__proto__")).
  { intros member. unfold extractProvider.
    destruct (Nat.ltb_spec (length (split "/" modelId)) 2) as [Hlt|Hge].
    { split; [discriminate | intros (Hlen & _); lia]. }
    pose proof (noUpper_toLowerCase (hd "" (split "/" modelId))) as Hlow.
    set (slug := toLowerCase (hd "" (split "/" modelId))) in *.
    destruct (PROVIDER_MAP !! slug) as [name|] eqn:Eget.
    - split; [destruct (isEmpty name); discriminate|].
      intros (_ & <- & Hm). destruct (member_slug slug Hm) as [Hnone _]. congruence.
    - destruct (isInherited slug) eqn:Ei.
      + split.
        * intros [= <-]. split; [exact Hge|]. split; [reflexivity|].
          now apply inherited_lower_case.
        * intros (_ & <- & _). reflexivity.
      + split; [discriminate|].
        intros (_ & <- & Hm). destruct (member_slug slug Hm) as [_ Hinh]. congruence. }
  split; [exact Hmember|].
  destruct (extractProvider modelId) as [name|member] eqn:E.
  - split; [|eauto]. intros _ (Hlen & Hm).
    assert (H : ProviderName name =
                PrototypeMember (toLowerCase (hd "" (split "/" modelId))))
      by (apply Hmember; auto).
    discriminate.
  - split; [intros [name H]; discriminate|]. intros Hnot. exfalso. apply Hnot.
    destruct (Hmember member) as [H _]. destruct (H eq_refl) as (Hlen & Hslug & Hm).
    split; [exact Hlen|]. now rewrite Hslug.
Qed.

Lemma extractProvider_name_or_member_witness :
  extractProvider "Constructor/model" = PrototypeMember "constructor" /\
  extractProvider "__PROTO__/model" = PrototypeMember "__proto__" /\
  exists name, extractProvider "toString/model" = ProviderName name.
Proof.
  split; [|split].
  - apply (proj1 (extractProvider_name_or_member "Constructor/model")).
    split; [vm_compute; lia|]. split; [reflexivity | now left].
  - apply (proj1 (extractProvider_name_or_member "__PROTO__/model")).
    split; [vm_compute; lia|]. split; [reflexivity | now right].
  - apply (proj2 (extractProvider_name_or_member "toString/model")).
    intros (_ & [H|H]); vm_compute in H; discriminate.
Defined.

(** *** Normalization composed with the readers *)

(** X8: in a normalized model both prices are numbers, never [NaN], and
    they are [0] when the model has no pricing; the modality is non-empty
    and holds no letter in upper case; a missing context length is [0]. *)
Theorem normalizeOpenRouterModel_fields (model : OpenRouterModel) :
  let parsed := normalizeOpenRouterModel model in
  PrimFloat.is_nan (pm_inputPrice parsed) = false /\
  PrimFloat.is_nan (pm_outputPrice parsed) = false /\
  (pricing model = None -> pm_inputPrice parsed = 0%float /\ pm_outputPrice parsed = 0%float) /\
  pm_modality parsed <> "" /\
  noUpper (pm_modality parsed) = true /\
  (context_length model = None -> pm_contextWindow parsed = 0%float).
Proof.
  cbv zeta. cbn [normalizeOpenRouterModel pm_inputPrice pm_outputPrice pm_modality pm_contextWindow].
  split; [apply tokenPriceToMillionPrice_is_number|].
  split; [apply tokenPriceToMillionPrice_is_number|].
  split; [intros ->; now split|].
  split; [apply normalizeModality_nonempty|].
  split; [|now intros ->].
  rewrite <- normalizeModality_lower. apply noUpper_toLowerCase.
Qed.

Lemma normalizeOpenRouterModel_fields_witness :
  let model :=
    {| id := "mistralai/mistral-7b"; name := "Mistral 7B"; description := None;
       context_length := None; pricing := None; architecture_modality := None;
       supported_parameters := None; capabilities := None |} in
  pm_inputPrice (normalizeOpenRouterModel model) = 0%float /\
  pm_outputPrice (normalizeOpenRouterModel model) = 0%float /\
  pm_contextWindow (normalizeOpenRouterModel model) = 0%float.
Proof.
  cbv zeta.
  match goal with
  | |- pm_inputPrice (normalizeOpenRouterModel ?m) = _ /\ _ =>
      destruct (normalizeOpenRouterModel_fields m) as (_ & _ & Hprice & _ & _ & Hctx)
  end.
  destruct (Hprice eq_refl) as [Hin Hout].
  split; [exact Hin|]. split; [exact Hout | exact (Hctx eq_refl)].
Defined.

Lemma normalizeModality_arrow (inp out : string) :
  normalizeModality (Some (inp +:+ "->" +:+ out)) = toLowerCase inp +:+ "->" +:+ toLowerCase out.
Proof.
  unfold normalizeModality.
  replace (isEmpty (inp +:+ "->" +:+ out)) with false by now destruct inp.
  now rewrite !toLowerCase_append.
Qed.

(** X9: normalization makes the flags read from the modality independent
    of the case of its letters: for a model whose modality is [inp->out],
    the vision and audio flags of the normalized modality tell whether the
    lower-cased input side contains ["image"] or ["audio"]; for a model
    without a modality both are false. *)
Theorem flags_of_normalized_modality (model : OpenRouterModel) :
  let modality := Some (pm_modality (normalizeOpenRouterModel model)) in
  (forall inp out,
     architecture_modality model = Some (inp +:+ "->" +:+ out) ->
     includes inp "->" = false ->
     supportsVision modality = includes (toLowerCase inp) "image" /\
     supportsAudio modality = includes (toLowerCase inp) "audio") /\
  (architecture_modality model = None ->
     supportsVision modality = false /\ supportsAudio modality = false).
Proof.
  cbv zeta. cbn [normalizeOpenRouterModel pm_modality]. split.
  - intros inp out -> H. rewrite normalizeModality_arrow.
    unfold supportsVision, supportsAudio.
    rewrite modalityPart_input by now rewrite includes_arrow_toLowerCase.
    now split.
  - intros ->. split; reflexivity.
Qed.

Lemma flags_of_normalized_modality_witness :
  let model :=
    {| id := "openai/gpt-4o"; name := "GPT-4o"; description := None;
       context_length := None; pricing := None;
       architecture_modality := Some ("Text+Image" +:+ "->" +:+ "Text");
       supported_parameters := None; capabilities := None |} in
  supportsVision (Some (pm_modality (normalizeOpenRouterModel model))) = true /\
  supportsVision (architecture_modality model) = false.
Proof.
  cbv zeta. split; [|reflexivity].
  match goal with
  | |- supportsVision (Some (pm_modality (normalizeOpenRouterModel ?m))) = true =>
      destruct (flags_of_normalized_modality m) as [H _]
  end.
  cbv zeta in H. destruct (H "Text+Image" "Text" eq_refl eq_refl) as [-> _]. reflexivity.
Defined.

End ModelFlagsFacts.

(** ** The parser: exceptions, order and precedence *)

Module ParserFacts.
Import JsString JsNumber JsValue Benchmarks JsStringFacts BenchmarksFacts.

Lemma parseItem_missing (item : JsValue) :
  item = VNull \/ item = VUndefined -> parseItem item = Throw TypeError.
Proof. intros [->| ->]; reflexivity. Qed.

Lemma missing_dec (item : JsValue) :
  {item = VNull \/ item = VUndefined} + {item <> VNull /\ item <> VUndefined}.
Proof. destruct item; try (right; split; discriminate); left; auto. Qed.

Lemma mapItems_parseItem_throws (items : list JsValue) :
  mapItems parseItem items = Throw TypeError <->
  exists item, In item items /\ (item = VNull \/ item = VUndefined).
Proof.
  induction items as [|x items IH].
  - split; [discriminate | intros (item & [] & _)].
  - cbn [mapItems]. destruct (missing_dec x) as [Hx|[Hnull Hundef]].
    + rewrite (parseItem_missing x Hx), bind_Throw.
      split; [intros _; exists x; split; [now left | exact Hx] | reflexivity].
    + destruct (parseItem_returns x Hnull Hundef) as [r ->]. rewrite bind_Ret.
      destruct (mapItems parseItem items) as [ys|e].
      * rewrite !bind_Ret. split; [discriminate|].
        intros (item & [<-|Hin] & Hitem).
        -- destruct Hitem; congruence.
        -- assert (H : @Ret (list (option ModelBenchmark)) ys = Throw TypeError)
             by (apply IH; eauto).
           discriminate.
      * destruct e. rewrite bind_Throw.
        split; [|reflexivity]. intros _.
        destruct IH as [IH _]. destruct (IH eq_refl) as (item & Hin & Hitem).
        exists item. split; [now right | exact Hitem].
Qed.

Lemma parseBenchmarks_eq (raw : JsValue) :
  parseBenchmarks raw =
  (parsed ← mapItems parseItem (extractModelsArray raw); mret (dropNulls parsed)).
Proof. unfold parseBenchmarks. now destruct (extractModelsArray raw). Qed.

(** X10: [parseBenchmarks] ends with an exception exactly when one of the
    items of the list it reads is [null] or [undefined]; for every other
    input, of whatever shape, it returns a list. *)
Theorem parseBenchmarks_throws_iff (raw : JsValue) :
  (parseBenchmarks raw = Throw TypeError <->
   exists item, In item (extractModelsArray raw) /\ (item = VNull \/ item = VUndefined)) /\
  ((exists records, parseBenchmarks raw = Ret records) <->
   forall item, In item (extractModelsArray raw) -> item <> VNull /\ item <> VUndefined).
Proof.
  rewrite parseBenchmarks_eq.
  pose proof (mapItems_parseItem_throws (extractModelsArray raw)) as Hthrow.
  destruct (mapItems parseItem (extractModelsArray raw)) as [parsed|e].
  - rewrite bind_Ret. split.
    + split; [discriminate|]. intros H. apply Hthrow in H. discriminate.
    + split; [|eauto]. intros _ item Hin.
      destruct (missing_dec item) as [Hitem|Hitem]; [|exact Hitem].
      assert (H : @Ret (list (option ModelBenchmark)) parsed = Throw TypeError)
        by (apply Hthrow; eauto).
      discriminate.
  - destruct e. rewrite bind_Throw. split.
    + split; [intros _; now apply Hthrow | reflexivity].
    + split; [intros [records H]; discriminate|].
      intros H. destruct Hthrow as [Hthrow _].
      destruct (Hthrow eq_refl) as (item & Hin & [->| ->]);
        destruct (H _ Hin); congruence.
Qed.

Lemma mapItems_app {A B : Type} (f : A -> Outcome B) (l1 l2 : list A) :
  mapItems f (l1 ++ l2)%list =
  (ys1 ← mapItems f l1; ys2 ← mapItems f l2; mret (ys1 ++ ys2)%list).
Proof.
  induction l1 as [|x l1 IH].
  - cbn [app mapItems]. rewrite bind_Ret.
    destruct (mapItems f l2); [now rewrite bind_Ret | now rewrite bind_Throw].
  - cbn [app mapItems]. rewrite IH.
    destruct (f x) as [y|e]; [rewrite !bind_Ret | now rewrite !bind_Throw].
    destruct (mapItems f l1) as [ys1|e]; [rewrite !bind_Ret | now rewrite !bind_Throw].
    destruct (mapItems f l2) as [ys2|e]; [now rewrite !bind_Ret | now rewrite !bind_Throw].
Qed.

Lemma dropNulls_app {A : Type} (l1 l2 : list (option A)) :
  dropNulls (l1 ++ l2)%list = (dropNulls l1 ++ dropNulls l2)%list.
Proof.
  induction l1 as [|[x|] l1 IH]; cbn [app dropNulls]; [reflexivity| |exact IH].
  now rewrite IH.
Qed.

Lemma dropNulls_length {A : Type} (l : list (option A)) :
  (length (dropNulls l) <= length l)%nat.
Proof. induction l as [|[x|] l IH]; cbn [dropNulls length]; lia. Qed.

Lemma mapItems_length {A B : Type} (f : A -> Outcome B) (l : list A) (ys : list B) :
  mapItems f l = Ret ys -> length ys = length l.
Proof.
  revert ys. induction l as [|x l IH]; intros ys H.
  - injection H as <-. reflexivity.
  - cbn [mapItems] in H. unbind H. injection H as <-.
    cbn [length]. f_equal. now apply IH.
Qed.

(** X11: [parseBenchmarks] works item by item and keeps the order: the
    records of a list made of two parts are the records of the first part
    followed by those of the second, an exception in either part being an
    exception of the whole; and there are never more records than items. *)
Theorem parseBenchmarks_app (items1 items2 : list JsValue) :
  parseBenchmarks (VArray (items1 ++ items2)) =
  (records1 ← parseBenchmarks (VArray items1);
   records2 ← parseBenchmarks (VArray items2);
   mret (records1 ++ records2)%list) /\
  forall raw records,
    parseBenchmarks raw = Ret records ->
    (length records <= length (extractModelsArray raw))%nat.
Proof.
  split.
  - rewrite !parseBenchmarks_eq. cbn [extractModelsArray]. rewrite mapItems_app.
    destruct (mapItems parseItem items1) as [ys1|e]; [rewrite !bind_Ret | now rewrite !bind_Throw].
    destruct (mapItems parseItem items2) as [ys2|e]; [rewrite !bind_Ret | now rewrite !bind_Throw].
    now rewrite dropNulls_app.
  - intros raw records. rewrite parseBenchmarks_eq. intros H. unbind H. injection H as <-.
    rewrite <- (mapItems_length _ _ _ Ha). apply dropNulls_length.
Qed.

Lemma parseBenchmarks_app_witness :
  let haiku := VObject [("model_name", VString "Claude Haiku 4.5"); ("creator", VString "Anthropic")] in
  let nameless := VObject [("creator", VString "OpenAI")] in
  let gemini := VObject [("name", VString "Gemini Ultra"); ("provider", VString "Google")] in
  let records := [namedRecord "Claude Haiku 4.5" "Anthropic"; namedRecord "Gemini Ultra" "Google"] in
  parseBenchmarks (VArray ([haiku; nameless] ++ [gemini])) = Ret records /\
  (length records <= length (extractModelsArray (VArray [haiku; nameless; gemini])))%nat.
Proof.
  cbv zeta. split.
  - match goal with
    | |- parseBenchmarks (VArray (?l1 ++ ?l2)) = _ =>
        destruct (parseBenchmarks_app l1 l2) as [-> _]
    end.
    reflexivity.
  - apply (proj2 (parseBenchmarks_app [] [])). reflexivity.
Defined.

(** *** Precedence of the aliases *)

Lemma getValue_object_first (props : list (string * JsValue)) (key : string)
  (rest : list string) (v : JsValue) :
  lookupProp props key = Some v -> isUndefined v = false ->
  getValue (VObject props) (key :: rest) = Ret v.
Proof.
  intros Hv Hdef. cbn [getValue getProp]. rewrite Hv, bind_Ret.
  change (default VUndefined (Some v)) with v. now rewrite Hdef.
Qed.

(** X12: an object whose [model_name] is a non-empty string and whose
    [model_creator.name] is a non-empty string always gives a record, with
    exactly this name and this creator: the later aliases of the name and
    the flat aliases of the creator are not consulted.  In the same way an
    index found under [evaluations] is taken before the flat aliases. *)
Theorem parseItem_precedence (props : list (string * JsValue)) (name' creator' : string) :
  lookupProp props "model_name" = Some (VString name') -> name' <> "" ->
  getNestedString (VObject props) "model_creator.name" = creator' -> creator' <> "" ->
  exists record,
    parseItem (VObject props) = Ret (Some record) /\
    modelName record = name' /\ creator record = creator' /\
    forall x,
      getNestedNumber (VObject props) "evaluations.artificial_analysis_intelligence_index" = Some x ->
      intelligenceIndex record = Some x.
Proof.
  intros Hname Hne Hcreator Hce.
  assert (Hobj : VObject props <> VNull /\ VObject props <> VUndefined) by (split; discriminate).
  destruct Hobj as [Hnull Hundef].
  assert (Hgs : getString (VObject props) modelNameAliases = Ret name').
  { unfold getString, modelNameAliases.
    now rewrite (getValue_object_first props "model_name" _ (VString name') Hname eq_refl), bind_Ret. }
  unfold parseItem. rewrite Hgs, bind_Ret.
  apply isEmpty_false in Hne, Hce. rewrite Hne. cbv zeta.
  rewrite Hcreator, Hce, bind_Ret, Hce.
  destruct (orNumber_returns
              (getNestedNumber (VObject props) "evaluations.artificial_analysis_intelligence_index")
              (getNumber (VObject props) ["intelligence_index"; "intelligenceIndex"])
              (getNumber_returns _ _ Hnull Hundef)) as [ii Hii].
  rewrite Hii, bind_Ret.
  repeat match goal with
         | |- context [orNumber ?a (getNumber ?item ?ks)] =>
             let x := fresh "x" in
             destruct (orNumber_returns a (getNumber item ks)
                         (getNumber_returns item ks Hnull Hundef)) as [x ->];
             rewrite bind_Ret
         | |- context [getNumber ?item ?ks] =>
             let x := fresh "x" in
             destruct (getNumber_returns item ks Hnull Hundef) as [x ->];
             rewrite bind_Ret
         end.
  eexists. split; [reflexivity|]. cbn [modelName creator intelligenceIndex].
  split; [reflexivity|]. split; [reflexivity|].
  intros index Hindex. rewrite Hindex in Hii. cbn [orNumber] in Hii. now injection Hii as <-.
Qed.

Lemma parseItem_precedence_witness :
  exists record,
    parseItem
      (VObject [ ("model_name", VString "Claude Haiku 4.5");
                 ("name", VString "claude-haiku");
                 ("creator", VString "anthropic-inc");
                 ("model_creator", VObject [("name", VString "Anthropic")]);
                 ("intelligence_index", VNumber 10);
                 ("evaluations",
                  VObject [("artificial_analysis_intelligence_index", VNumber 42)]) ])
    = Ret (Some record) /\
    modelName record = "Claude Haiku 4.5" /\ creator record = "Anthropic" /\
    intelligenceIndex record = Some 42%float.
Proof.
  destruct (parseItem_precedence
              [ ("model_name", VString "Claude Haiku 4.5");
                ("name", VString "claude-haiku");
                ("creator", VString "anthropic-inc");
                ("model_creator", VObject [("name", VString "Anthropic")]);
                ("intelligence_index", VNumber 10);
                ("evaluations",
                 VObject [("artificial_analysis_intelligence_index", VNumber 42)]) ]
              "Claude Haiku 4.5" "Anthropic" eq_refl ltac:(discriminate) eq_refl
              ltac:(discriminate)) as (record & Hparse & Hn & Hc & Hi).
  exists record. repeat split; try assumption. apply Hi. reflexivity.
Defined.

End ParserFacts.

(** ** Normalized names and tokens *)

Module NormalizeFacts.
Import JsString JsNumber JsValue Benchmarks JsStringFacts JsStringCaseFacts MatcherFacts.

(** A character that [normalizeForMatch] keeps inside a word. *)
Definition isWordChar (c : ascii) : bool := isLower c || isDigit c.

(** Words of such characters, separated by single spaces; [afterSpace]
    tells that a space may not come next. *)
Fixpoint spaced (afterSpace : bool) (s : string) : bool :=
  match s with
  | EmptyString => true
  | String c r =>
      if Ascii.eqb c " " then negb afterSpace && spaced true r
      else isWordChar c && spaced false r
  end.

(** Every character is a word character or white space. *)
Fixpoint wordsAndSpace (s : string) : bool :=
  match s with
  | EmptyString => true
  | String c r => (isWordChar c || isSpace c) && wordsAndSpace r
  end.

Lemma char_classes (c : ascii) :
  (isWordChar c = true -> isSpace c = false /\ isUpper c = false /\ Ascii.eqb c " " = false) /\
  (Ascii.eqb c " " = true -> isSpace c = true /\ isUpper c = false /\ isWordChar c = false) /\
  (isWordChar (replaceNonWord (lowerChar c)) || isSpace (replaceNonWord (lowerChar c)) = true) /\
  (isWordChar c || isSpace c = true -> replaceNonWord c = c).
Proof. destruct c as [[] [] [] [] [] [] [] []]; vm_compute; repeat split; congruence. Qed.

Lemma wordsAndSpace_replaced (s : string) :
  wordsAndSpace (mapChars replaceNonWord (toLowerCase s)) = true.
Proof.
  induction s as [|c r IH]; [reflexivity|].
  cbn [toLowerCase mapChars wordsAndSpace]. rewrite IH.
  destruct (char_classes c) as (_ & _ & -> & _). reflexivity.
Qed.

Lemma spaced_collapseFrom (inRun : bool) (s : string) :
  wordsAndSpace s = true -> spaced inRun (collapseFrom inRun s) = true.
Proof.
  revert inRun. induction s as [|c r IH]; intros inRun; [reflexivity|].
  cbn [wordsAndSpace collapseFrom]. rewrite andb_true_iff. intros [Hc Hr].
  destruct (isSpace c) eqn:Es.
  - destruct inRun; [now apply IH|].
    cbn [spaced]. change (Ascii.eqb " " " ") with true. cbn [negb andb]. now apply IH.
  - rewrite orb_false_r in Hc. cbn [spaced].
    destruct (char_classes c) as (Hw & _). destruct (Hw Hc) as (_ & _ & ->).
    rewrite Hc. cbn [andb]. now apply IH.
Qed.

Lemma spaced_weaken (s : string) : spaced true s = true -> spaced false s = true.
Proof. destruct s as [|c r]; [reflexivity|]. cbn [spaced]. now destruct (Ascii.eqb c " "). Qed.

Lemma trimStart_spaced (s : string) : spaced true s = true -> trimStart s = s.
Proof.
  destruct s as [|c r]; [reflexivity|]. cbn [spaced trimStart].
  destruct (Ascii.eqb c " ") eqn:E; [discriminate|].
  rewrite andb_true_iff. intros [Hc _].
  destruct (char_classes c) as (Hw & _). destruct (Hw Hc) as (-> & _). reflexivity.
Qed.

Lemma spaced_trimStart (s : string) :
  spaced false s = true -> spaced true (trimStart s) = true.
Proof.
  destruct s as [|c r]; [reflexivity|]. cbn [spaced trimStart].
  destruct (Ascii.eqb c " ") eqn:E.
  - cbn [negb andb]. intros Hr.
    destruct (char_classes c) as (_ & Hs & _). destruct (Hs E) as (-> & _).
    now rewrite (trimStart_spaced r Hr).
  - rewrite andb_true_iff. intros [Hc Hr].
    destruct (char_classes c) as (Hw & _). destruct (Hw Hc) as (-> & _).
    cbn [spaced]. now rewrite E, Hc.
Qed.

Lemma spaced_trimEnd (afterSpace : bool) (s : string) :
  spaced afterSpace s = true -> spaced afterSpace (trimEnd s) = true.
Proof.
  revert afterSpace. induction s as [|c r IH]; intros afterSpace; [reflexivity|].
  cbn [spaced trimEnd]. destruct (Ascii.eqb c " ") eqn:E.
  - rewrite andb_true_iff. intros [Ha Hr]. specialize (IH true Hr).
    destruct (char_classes c) as (_ & Hs & _). destruct (Hs E) as (Es & _).
    destruct (trimEnd r) as [|d t]; [now rewrite Es|].
    cbn [spaced]. now rewrite E, Ha.
  - rewrite andb_true_iff. intros [Hc Hr]. specialize (IH false Hr).
    destruct (char_classes c) as (Hw & _). destruct (Hw Hc) as (Es & _).
    destruct (trimEnd r) as [|d t].
    + rewrite Es. cbn [spaced]. now rewrite E, Hc.
    + cbn [spaced] in IH |- *. now rewrite E, Hc.
Qed.

Lemma trimEnd_idem (s : string) : trimEnd (trimEnd s) = trimEnd s.
Proof.
  induction s as [|c r IH]; [reflexivity|]. cbn [trimEnd].
  destruct (trimEnd r) as [|d t] eqn:Et.
  - destruct (isSpace c) eqn:Es; [reflexivity|]. cbn [trimEnd]. now rewrite Es.
  - change (trimEnd (String c (String d t)))
      with (match trimEnd (String d t) with
            | EmptyString => if isSpace c then EmptyString else String c EmptyString
            | r' => String c r'
            end).
    now rewrite IH.
Qed.

Lemma toLowerCase_spaced (afterSpace : bool) (s : string) :
  spaced afterSpace s = true -> toLowerCase s = s.
Proof.
  revert afterSpace. induction s as [|c r IH]; intros afterSpace; [reflexivity|].
  cbn [spaced toLowerCase]. unfold lowerChar. destruct (char_classes c) as (Hw & Hs & _).
  destruct (Ascii.eqb c " ").
  - rewrite andb_true_iff. intros [_ Hr]. destruct (Hs eq_refl) as (_ & -> & _).
    now rewrite (IH true Hr).
  - rewrite andb_true_iff. intros [Hc Hr]. destruct (Hw Hc) as (_ & -> & _).
    now rewrite (IH false Hr).
Qed.

Lemma mapChars_spaced (afterSpace : bool) (s : string) :
  spaced afterSpace s = true -> mapChars replaceNonWord s = s.
Proof.
  revert afterSpace. induction s as [|c r IH]; intros afterSpace; [reflexivity|].
  cbn [spaced mapChars]. destruct (char_classes c) as (_ & Hs & _ & Hfix).
  destruct (Ascii.eqb c " ").
  - rewrite andb_true_iff. intros [_ Hr]. destruct (Hs eq_refl) as (Es & _).
    rewrite Hfix by (rewrite Es; apply orb_true_r). now rewrite (IH true Hr).
  - rewrite andb_true_iff. intros [Hc Hr].
    rewrite Hfix by now rewrite Hc. now rewrite (IH false Hr).
Qed.

Lemma collapseFrom_spaced (inRun : bool) (s : string) :
  spaced inRun s = true -> collapseFrom inRun s = s.
Proof.
  revert inRun. induction s as [|c r IH]; intros inRun; [reflexivity|].
  cbn [spaced collapseFrom]. destruct (char_classes c) as (Hw & Hs & _).
  destruct (Ascii.eqb_spec c " ") as [->|Hne].
  - rewrite andb_true_iff, negb_true_iff. intros [-> Hr].
    change (isSpace " ") with true. cbn iota. now rewrite (IH true Hr).
  - rewrite andb_true_iff. intros [Hc Hr]. destruct (Hw Hc) as (-> & _).
    now rewrite (IH false Hr).
Qed.

(** What the four steps of [normalizeForMatch] establish. *)
Lemma normalizeForMatch_spaced (str : string) :
  spaced true (normalizeForMatch str) = true /\
  trimEnd (normalizeForMatch str) = normalizeForMatch str.
Proof.
  unfold normalizeForMatch, trim. split; [|apply trimEnd_idem].
  apply spaced_trimEnd, spaced_trimStart, spaced_collapseFrom, wordsAndSpace_replaced.
Qed.

Lemma spaced_chars (afterSpace : bool) (s : string) (c : ascii) :
  spaced afterSpace s = true -> includes s (String c "") = true ->
  isWordChar c = true \/ c = " "%char.
Proof.
  revert afterSpace. induction s as [|x r IH]; intros afterSpace Hs Hc; [discriminate|].
  rewrite includes_char_cons, orb_true_iff in Hc. cbn [spaced] in Hs.
  destruct (Ascii.eqb_spec x " ") as [->|Hne]; apply andb_true_iff in Hs; destruct Hs as [Hx Hr].
  - destruct Hc as [Hc|Hc]; [right; now apply Ascii.eqb_eq in Hc | now apply (IH true)].
  - destruct Hc as [Hc|Hc]; [left; apply Ascii.eqb_eq in Hc; now subst | now apply (IH false)].
Qed.

Lemma spaced_no_double_space (afterSpace : bool) (s : string) :
  spaced afterSpace s = true -> includes s "  " = false.
Proof.
  revert afterSpace. induction s as [|x r IH]; intros afterSpace Hs; [reflexivity|].
  change (includes (String x r) "  ") with (startsWith (String x r) "  " || includes r "  ").
  cbn [spaced] in Hs. apply orb_false_iff.
  destruct (Ascii.eqb_spec x " ") as [->|Hne]; apply andb_true_iff in Hs; destruct Hs as [Hx Hr].
  - split; [|now apply (IH true)].
    destruct r as [|y r']; [reflexivity|]. cbn [startsWith spaced] in Hr |- *.
    change (Ascii.eqb " " " ") with true. cbn iota.
    rewrite Ascii.eqb_sym. destruct (Ascii.eqb y " "); [discriminate|reflexivity].
  - split; [|now apply (IH false)].
    cbn [startsWith]. rewrite Ascii.eqb_sym.
    destruct (Ascii.eqb_spec x " "); [contradiction|reflexivity].
Qed.

(** X13: a normalized name consists of the characters [a-z], [0-9] and the
    space only, has no two spaces in a row, and has no white space at
    either end. *)
Theorem normalizeForMatch_shape (str : string) :
  (forall c, includes (normalizeForMatch str) (String c "") = true ->
     isLower c || isDigit c = true \/ c = " "%char) /\
  includes (normalizeForMatch str) "  " = false /\
  trim (normalizeForMatch str) = normalizeForMatch str.
Proof.
  destruct (normalizeForMatch_spaced str) as [Hs Ht]. split; [|split].
  - intros c. now apply (spaced_chars true).
  - now apply (spaced_no_double_space true).
  - unfold trim at 1. now rewrite (trimStart_spaced _ Hs).
Qed.

(** X14: normalizing a normalized name changes nothing. *)
Theorem normalizeForMatch_idempotent (str : string) :
  normalizeForMatch (normalizeForMatch str) = normalizeForMatch str.
Proof.
  destruct (normalizeForMatch_spaced str) as [Hs Ht].
  set (n := normalizeForMatch str) in *.
  unfold normalizeForMatch at 1. unfold trim.
  rewrite (toLowerCase_spaced true n Hs), (mapChars_spaced true n Hs).
  rewrite (collapseFrom_spaced false n (spaced_weaken n Hs)).
  now rewrite (trimStart_spaced n Hs).
Qed.

(** *** Tokens *)

Lemma split_char_pieces (sep : ascii) (s piece : string) (c : ascii) :
  In piece (split (String sep "") s) -> includes piece (String c "") = true ->
  includes s (String c "") = true /\ c <> sep.
Proof.
  revert piece. induction s as [|x r IH]; intros piece Hin Hc.
  - destruct Hin as [<-|[]]. discriminate.
  - rewrite split_char_cons in Hin. rewrite includes_char_cons.
    destruct (Ascii.eqb_spec sep x) as [->|Hne].
    + destruct Hin as [<-|Hin]; [discriminate|].
      destruct (IH piece Hin Hc) as [-> Hsep]. now rewrite orb_true_r.
    + pose proof (split_from_nonempty (String sep "") 0 r) as Hnil.
      fold (split (String sep "") r) in Hnil.
      destruct (split (String sep "") r) as [|first pieces]; [contradiction|].
      destruct Hin as [<-|Hin].
      * rewrite includes_char_cons, orb_true_iff in Hc. destruct Hc as [Hc|Hc].
        -- apply Ascii.eqb_eq in Hc. subst x. rewrite Ascii.eqb_refl. split; [reflexivity|congruence].
        -- destruct (IH first (or_introl eq_refl) Hc) as [-> Hsep]. now rewrite orb_true_r.
      * destruct (IH piece (or_intror Hin) Hc) as [-> Hsep]. now rewrite orb_true_r.
Qed.

(** X15: every token of a name has at least two characters, all of them in
    [a-z] or [0-9], and is none of the stop words. *)
Theorem extractModelTokens_tokens (name token : string) :
  In token (extractModelTokens name) ->
  (2 <= String.length token)%nat /\
  (token ∉ stopWords) /\
  forall c, includes token (String c "") = true -> isLower c || isDigit c = true.
Proof.
  unfold extractModelTokens. rewrite filter_In, andb_true_iff, negb_true_iff.
  intros (Hin & Hlen & Hstop). split; [|split].
  - apply Nat.ltb_lt in Hlen. lia.
  - now apply bool_decide_eq_false in Hstop.
  - intros c Hc. destruct (split_char_pieces " " _ _ c Hin Hc) as [Hn Hsep].
    destruct (normalizeForMatch_spaced name) as [Hs _].
    destruct (spaced_chars true _ c Hs Hn) as [Hw|Hw]; [exact Hw | contradiction].
Qed.

Lemma extractModelTokens_tokens_witness :
  (2 <= String.length "haiku")%nat /\ ("haiku" ∉ stopWords).
Proof.
  destruct (extractModelTokens_tokens "Claude Haiku 4.5 (Preview)" "haiku"
              ltac:(vm_compute; auto)) as (Hlen & Hstop & _).
  split; assumption.
Defined.

End NormalizeFacts.

(** ** More on the order of binary64 numbers and on quotients of counts *)

Module Binary64OrderFacts.
Import JsNumber Binary64Facts.

Local Open Scope float_scope.

Lemma SFltb_leb (a b : spec_float) : SFltb a b = true -> SFleb a b = true.
Proof.
  destruct a as [[]|[]| |[] ma ea], b as [[]|[]| |[] mb eb];
    try (intros; discriminate); try (intros; reflexivity); sf_compare.
Qed.

Lemma SFltb_leb_trans (a b c : spec_float) :
  SFltb a b = true -> SFleb b c = true -> SFltb a c = true.
Proof.
  destruct a as [[]|[]| |[] ma ea], b as [[]|[]| |[] mb eb], c as [[]|[]| |[] mc ec];
    try (intros; discriminate); try (intros; reflexivity); sf_compare.
Qed.

Lemma SFltb_leb_false (a b : spec_float) :
  SFltb a b = true -> SFleb b a = true -> False.
Proof.
  destruct a as [[]|[]| |[] ma ea], b as [[]|[]| |[] mb eb];
    try (intros; discriminate); sf_compare.
Qed.

(** Of two numbers, neither of them [NaN], one is below the other or at
    most equal to it.  That [x] and [t] are numbers is given by a
    comparison that holds of each. *)
Lemma SFleb_total (t x z b : spec_float) :
  SFleb t x = false -> SFltb z x = true -> SFleb t b = true -> SFltb x t = true.
Proof.
  destruct t as [[]|[]| |[] mt et], x as [[]|[]| |[] mx ex];
    try (intros; discriminate); try (intros; reflexivity);
    destruct z as [[]|[]| |[] mz ez], b as [[]|[]| |[] mb eb];
    try (intros; discriminate); try (intros; reflexivity); sf_compare.
Qed.

Lemma ltb_leb (x y : float) : (x <? y) = true -> (x <=? y) = true.
Proof. rewrite FloatAxioms.ltb_spec, FloatAxioms.leb_spec. apply SFltb_leb. Qed.

Lemma ltb_leb_trans (x y z : float) :
  (x <? y) = true -> (y <=? z) = true -> (x <? z) = true.
Proof. rewrite !FloatAxioms.ltb_spec, FloatAxioms.leb_spec. apply SFltb_leb_trans. Qed.

Lemma ltb_leb_false (x y : float) : (x <? y) = true -> (y <=? x) = true -> False.
Proof. rewrite FloatAxioms.ltb_spec, FloatAxioms.leb_spec. apply SFltb_leb_false. Qed.

Lemma not_leb_ltb (t x z b : float) :
  (t <=? x) = false -> (z <? x) = true -> (t <=? b) = true -> (x <? t) = true.
Proof. rewrite !FloatAxioms.ltb_spec, !FloatAxioms.leb_spec. apply SFleb_total. Qed.

(** A count divided by itself is one. *)
Lemma quotient_self (n : nat) :
  (1 <= n)%nat -> (Z.of_nat n < 2 ^ 53)%Z -> numberOfNat n / numberOfNat n = 1.
Proof.
  intros Hn Hb. apply FloatAxioms.Prim2SF_inj.
  rewrite FloatAxioms.div_spec, Prim2SF_numberOfNat by lia. unfold SF64div.
  destruct (binary_normalize_small (Z.of_nat n) ltac:(lia)) as (m & -> & _ & Hm).
  rewrite SFdiv_self by lia. rewrite Prim2SF_one. reflexivity.
Qed.

(** The quotient of two counts is positive exactly when the first count
    is. *)
Lemma quotient_positive (m n : nat) :
  (m <= n)%nat -> (1 <= n)%nat -> (Z.of_nat n < 2 ^ 53)%Z ->
  (0 <? numberOfNat m / numberOfNat n) = (0 <? m)%nat.
Proof.
  intros Hmn Hn Hb. rewrite FloatAxioms.ltb_spec.
  change (Prim2SF 0) with (S754_zero false).
  destruct m as [|m'].
  - rewrite FloatAxioms.div_spec, !Prim2SF_numberOfNat by lia. unfold SF64div.
    destruct (binary_normalize_small (Z.of_nat n) ltac:(lia)) as (my & -> & _ & _).
    reflexivity.
  - destruct (Nat.eq_dec (S m') n) as [E|E].
    + rewrite E, quotient_self, Prim2SF_one by lia.
      symmetry. apply Nat.ltb_lt. lia.
    + assert (Hlt : (S m' < n)%nat) by lia.
      destruct (quotient_of_counts (S m') n Hmn Hn Hb) as [Hz|(mq & eq & -> & _)];
        [|reflexivity].
      exfalso. revert Hz.
      rewrite FloatAxioms.div_spec, !Prim2SF_numberOfNat by lia. unfold SF64div.
      destruct (binary_normalize_small (Z.of_nat n) ltac:(lia)) as (my & -> & Hmy & Hmyb).
      destruct (binary_normalize_small (Z.of_nat (S m')) ltac:(lia)) as (mx & -> & Hmx & Hmxb).
      intros Hz.
      pose proof (Zdigits2_mono (Z.of_nat (S m')) (Z.of_nat n) ltac:(lia)) as Hd.
      assert (Hdm : (1 <= Zdigits2 (Z.of_nat (S m')) <= 53)%Z).
      { split.
        - destruct (Z.of_nat (S m')) eqn:Ez; try lia. cbn [Zdigits2]. lia.
        - exact (Zdigits2_mono (Z.of_nat (S m')) (2 ^ 53 - 1) ltac:(lia)). }
      assert (Hdn : (1 <= Zdigits2 (Z.of_nat n) <= 53)%Z).
      { split; [lia|]. exact (Zdigits2_mono (Z.of_nat n) (2 ^ 53 - 1) ltac:(lia)). }
      assert (Hbelow : belowOne (SFdiv prec emax
                (S754_finite false mx (Zdigits2 (Z.of_nat (S m')) - 53))
                (S754_finite false my (Zdigits2 (Z.of_nat n) - 53)))).
      { apply SFdiv_below_one; try lia.
        destruct (Z.eq_dec (Zdigits2 (Z.of_nat (S m'))) (Zdigits2 (Z.of_nat n))) as [Ed|Ed];
          [right|left; lia].
        split; [lia|]. rewrite Hmx, Hmy, Ed.
        apply Z.mul_lt_mono_pos_r; [apply pow2_pos|]; lia. }
      rewrite Hz in Hbelow. destruct Hbelow as (mq & eq & Hq & _). discriminate.
Qed.

Lemma quotient_zero (n : nat) :
  (1 <= n)%nat -> (Z.of_nat n < 2 ^ 53)%Z -> numberOfNat 0 / numberOfNat n = 0.
Proof.
  intros Hn Hb. apply FloatAxioms.Prim2SF_inj.
  rewrite FloatAxioms.div_spec, !Prim2SF_numberOfNat by lia. unfold SF64div.
  destruct (binary_normalize_small (Z.of_nat n) ltac:(lia)) as (my & -> & _ & _).
  reflexivity.
Qed.

End Binary64OrderFacts.

(** ** The matcher: what the result depends on *)

Module MatchingFacts.
Import JsString JsNumber JsValue Benchmarks JsStringFacts JsStringCaseFacts.
Import Binary64Facts Binary64OrderFacts MatcherFacts.

Local Open Scope float_scope.

(** *** Case of the letters *)

Lemma split_slash_toLowerCase (s : string) :
  split "/" (toLowerCase s) = map toLowerCase (split "/" s).
Proof.
  induction s as [|x r IH]; [reflexivity|].
  cbn [toLowerCase]. rewrite !split_char_cons, lowerChar_slash, IH.
  destruct (Ascii.eqb "/" x); [reflexivity|].
  destruct (split "/" r); reflexivity.
Qed.

Lemma providerOf_toLowerCase (modelId : string) :
  providerOf (toLowerCase modelId) = providerOf modelId.
Proof.
  rewrite !providerOf_eq, split_slash_toLowerCase.
  destruct (split "/" modelId) as [|first pieces]; [reflexivity|].
  cbn [map hd]. apply toLowerCase_idem.
Qed.

Lemma extractModelTokens_toLowerCase (name : string) :
  extractModelTokens (toLowerCase name) = extractModelTokens name.
Proof. unfold extractModelTokens, normalizeForMatch. now rewrite toLowerCase_idem. Qed.

Lemma fold_left_pointwise {A B : Type} (f g : A -> B -> A) (l : list B) (a : A) :
  (forall x y, f x y = g x y) -> fold_left f l a = fold_left g l a.
Proof.
  intros H. revert a. induction l as [|y l IH]; intros a; [reflexivity|].
  cbn [fold_left]. now rewrite H, IH.
Qed.

Lemma matchBenchmark_fold (modelId modelName' : string)
  (benchmarks : list ModelBenchmark) (minMatchThreshold : option float) :
  matchBenchmark modelId modelName' benchmarks minMatchThreshold =
  fst (fold_left
         (matchStep (providerOf modelId) modelName' (default defaultThreshold minMatchThreshold))
         benchmarks (None, 0)).
Proof. now destruct benchmarks. Qed.

Lemma matchBenchmark_depends (modelId modelId' modelName' modelName'' : string)
  (benchmarks : list ModelBenchmark) (minMatchThreshold : option float) :
  providerOf modelId' = providerOf modelId ->
  extractModelTokens modelName'' = extractModelTokens modelName' ->
  matchBenchmark modelId' modelName'' benchmarks minMatchThreshold =
  matchBenchmark modelId modelName' benchmarks minMatchThreshold.
Proof.
  intros Hp Ht. rewrite !matchBenchmark_fold, Hp. f_equal.
  apply fold_left_pointwise. intros best benchmark.
  unfold matchStep, scoreOf, calculateSimilarity. now rewrite Ht.
Qed.

(** X16: matching does not depend on the case of the letters of the model
    id and of the model name: two ids that agree in lower case, with two
    names that agree in lower case, give the same match in every list and
    for every threshold. *)
Theorem matchBenchmark_case_insensitive (modelId modelId' modelName' modelName'' : string)
  (benchmarks : list ModelBenchmark) (minMatchThreshold : option float) :
  toLowerCase modelId' = toLowerCase modelId ->
  toLowerCase modelName'' = toLowerCase modelName' ->
  matchBenchmark modelId' modelName'' benchmarks minMatchThreshold =
  matchBenchmark modelId modelName' benchmarks minMatchThreshold.
Proof.
  intros Hid Hname. apply matchBenchmark_depends.
  - now rewrite <- (providerOf_toLowerCase modelId'), Hid, providerOf_toLowerCase.
  - now rewrite <- (extractModelTokens_toLowerCase modelName''), Hname,
      extractModelTokens_toLowerCase.
Qed.

Lemma matchBenchmark_case_insensitive_witness :
  matchBenchmark "ANTHROPIC/Claude-Haiku-4.5" "CLAUDE HAIKU 4.5"
    [namedRecord "Claude Sonnet 4.5" "Anthropic"; namedRecord "Claude Haiku 4.5" "Anthropic"]
    None =
  matchBenchmark "anthropic/claude-haiku-4.5" "Claude Haiku 4.5"
    [namedRecord "Claude Sonnet 4.5" "Anthropic"; namedRecord "Claude Haiku 4.5" "Anthropic"]
    None.
Proof. apply matchBenchmark_case_insensitive; reflexivity. Defined.

(** *** Similarity at its ends *)

Lemma countMatches_all (tokens1 tokens2 : list string) :
  (forall t, In t tokens1 -> existsb (tokensMatch t) tokens2 = true) ->
  countMatches tokens1 tokens2 = length tokens1.
Proof.
  induction tokens1 as [|t rest IH]; intros H; [reflexivity|].
  cbn [countMatches length]. rewrite (H t (or_introl eq_refl)), IH; [reflexivity|].
  intros t' Ht'. apply H. now right.
Qed.

Lemma countMatches_positive (tokens1 tokens2 : list string) :
  (0 < countMatches tokens1 tokens2)%nat <->
  exists t1 t2, In t1 tokens1 /\ In t2 tokens2 /\ tokensMatch t1 t2 = true.
Proof.
  induction tokens1 as [|t rest IH].
  - cbn [countMatches]. split; [lia | intros (t1 & t2 & [] & _)].
  - cbn [countMatches]. destruct (existsb (tokensMatch t) tokens2) eqn:E.
    + split; [intros _ | lia]. apply existsb_exists in E. destruct E as (t2 & Hin & Hm).
      exists t, t2. split; [now left | now split].
    + rewrite Nat.add_0_l, IH. split.
      * intros (t1 & t2 & H1 & H2 & Hm). exists t1, t2. split; [now right | now split].
      * intros (t1 & t2 & [<-|H1] & H2 & Hm); [|now exists t1, t2].
        assert (existsb (tokensMatch t) tokens2 = true) by (apply existsb_exists; eauto).
        congruence.
Qed.

(** X17: the similarity of two names is [1] when every token of the first
    name matches a token of the second and the second has no more tokens
    than the first; in particular for two names with the same tokens,
    whatever their case, punctuation, stop words and one-letter words. *)
Theorem calculateSimilarity_full (name1 name2 : string) :
  withinMaxLength name1 ->
  extractModelTokens name2 <> [] ->
  (length (extractModelTokens name2) <= length (extractModelTokens name1))%nat ->
  (forall t, In t (extractModelTokens name1) ->
     existsb (tokensMatch t) (extractModelTokens name2) = true) ->
  calculateSimilarity name1 name2 = 1.
Proof.
  intros Hmax Hne Hlen Hall. unfold calculateSimilarity.
  pose proof (extractModelTokens_length name1) as L1.
  rewrite (countMatches_all _ _ Hall), Nat.max_l by exact Hlen.
  destruct (extractModelTokens name2) as [|b tokens2]; [contradiction|].
  destruct (extractModelTokens name1) as [|a tokens1]; [cbn [length] in Hlen; lia|].
  apply quotient_self; [cbn [length]; lia|].
  unfold withinMaxLength in Hmax. lia.
Qed.

Lemma calculateSimilarity_full_witness :
  calculateSimilarity "Claude Haiku 4.5" "claude-4.5-haiku (preview)" = 1.
Proof.
  apply calculateSimilarity_full.
  - vm_compute. reflexivity.
  - vm_compute. discriminate.
  - vm_compute. lia.
  - vm_compute. intros t [<-|[<-|[]]]; reflexivity.
Defined.

(** X18: the similarity of two names is positive exactly when some token
    of the first matches some token of the second, and it is [0]
    otherwise; so a record none of whose tokens matches can never be
    returned, whatever the threshold. *)
Theorem calculateSimilarity_positive_iff (name1 name2 : string) :
  withinMaxLength name1 -> withinMaxLength name2 ->
  ((0 <? calculateSimilarity name1 name2) = true <->
   exists t1 t2, In t1 (extractModelTokens name1) /\ In t2 (extractModelTokens name2) /\
                 tokensMatch t1 t2 = true) /\
  ((0 <? calculateSimilarity name1 name2) = false -> calculateSimilarity name1 name2 = 0).
Proof.
  intros H1 H2. rewrite <- countMatches_positive. unfold calculateSimilarity.
  pose proof (extractModelTokens_length name1) as L1.
  pose proof (extractModelTokens_length name2) as L2.
  unfold withinMaxLength in H1, H2.
  destruct (extractModelTokens name1) as [|a tokens1].
  { split; [|reflexivity]. cbn [countMatches]. split; [discriminate | lia]. }
  destruct (extractModelTokens name2) as [|b tokens2].
  { split; [|reflexivity]. split; [discriminate|].
    pose proof (countMatches_le (a :: tokens1) []) as Hle.
    intros Hpos. exfalso.
    apply countMatches_positive in Hpos. destruct Hpos as (t1 & t2 & _ & [] & _). }
  set (tokens1' := a :: tokens1) in *. set (tokens2' := b :: tokens2) in *.
  pose proof (countMatches_le tokens1' tokens2') as Hle.
  assert (Hn : (1 <= Nat.max (length tokens1') (length tokens2'))%nat)
    by (subst tokens1'; cbn [length]; lia).
  assert (Hb : (Z.of_nat (Nat.max (length tokens1') (length tokens2')) < 2 ^ 53)%Z) by lia.
  rewrite quotient_positive by lia. split.
  - apply Nat.ltb_lt.
  - intros Hz. apply Nat.ltb_ge in Hz.
    assert (countMatches tokens1' tokens2' = 0)%nat as -> by lia.
    now apply quotient_zero.
Qed.

Lemma calculateSimilarity_positive_iff_witness :
  (0 <? calculateSimilarity "GPT-4 Turbo" "Gemini Ultra") = false /\
  calculateSimilarity "GPT-4 Turbo" "Gemini Ultra" = 0.
Proof.
  destruct (calculateSimilarity_positive_iff "GPT-4 Turbo" "Gemini Ultra")
    as [_ Hzero]; try (vm_compute; reflexivity).
  split; [vm_compute; reflexivity | apply Hzero; vm_compute; reflexivity].
Defined.

(** *** The record that is returned *)

(** The record [b] is the first of the best among the records of
    [benchmarks] that qualify. *)
Definition firstBest (threshold : float) (score : ModelBenchmark -> float)
  (benchmarks : list ModelBenchmark) (b : ModelBenchmark) : Prop :=
  qualifies threshold (score b) /\
  exists pre post,
    benchmarks = (pre ++ b :: post)%list /\
    (forall x, In x pre -> qualifies threshold (score x) -> (score x <? score b) = true) /\
    (forall x, In x post -> qualifies threshold (score x) -> (score x <=? score b) = true).

Lemma matchBenchmark_result (modelId modelName' : string)
  (benchmarks : list ModelBenchmark) (threshold : float) :
  match matchBenchmark modelId modelName' benchmarks (Some threshold) with
  | Some b => firstBest threshold (scoreOf (providerOf modelId) modelName') benchmarks b
  | None =>
      forall x, In x benchmarks ->
        ~ qualifies threshold (scoreOf (providerOf modelId) modelName' x)
  end.
Proof.
  rewrite matchBenchmark_fold. cbn [default].
  pose proof (loopInvariant_fold (providerOf modelId) modelName' threshold
                benchmarks [] (None, 0)) as H.
  cbn [app] in H. unfold loopInvariant in H. cbv zeta in H.
  change (default defaultThreshold (Some threshold)) with threshold.
  destruct (fst (fold_left _ benchmarks (None, 0))) as [b|].
  - destruct H as (_ & Hq & Hrest); [|now split].
    cbn [fst snd]. split; [reflexivity | intros ? []].
  - destruct H as (_ & H); [|exact H].
    cbn [fst snd]. split; [reflexivity | intros ? []].
Qed.

(** There is one such record at most. *)
Lemma firstBest_unique (threshold : float) (score : ModelBenchmark -> float)
  (benchmarks : list ModelBenchmark) (b b' : ModelBenchmark) :
  firstBest threshold score benchmarks b -> firstBest threshold score benchmarks b' -> b = b'.
Proof.
  intros (Hq & pre & post & E & Hpre & Hpost) (Hq' & pre' & post' & E' & Hpre' & Hpost').
  rewrite E in E'. apply app_eq_app in E'. destruct E' as (l & [[E1 E2]|[E1 E2]]).
  - destruct l as [|y l].
    + cbn [app] in E2. now injection E2.
    + cbn [app] in E2. injection E2 as <- ->. exfalso.
      assert (Hlt : (score b' <? score b) = true).
      { apply Hpre; [|exact Hq']. rewrite E1. apply in_or_app. right. now left. }
      assert (Hle : (score b <=? score b') = true).
      { apply Hpost'; [|exact Hq]. apply in_or_app. right. now left. }
      exact (ltb_leb_false _ _ Hlt Hle).
  - destruct l as [|y l].
    + cbn [app] in E2. now injection E2.
    + cbn [app] in E2. injection E2 as <- ->. exfalso.
      assert (Hlt : (score b <? score b') = true).
      { apply Hpre'; [|exact Hq]. rewrite E1. apply in_or_app. right. now left. }
      assert (Hle : (score b' <=? score b) = true).
      { apply Hpost; [|exact Hq']. apply in_or_app. right. now left. }
      exact (ltb_leb_false _ _ Hlt Hle).
Qed.

(** X19: when the list holds a record whose name has similarity [1] with
    the model name and the threshold is at most [1], a record is returned,
    and its score is at least [1]. *)
Theorem matchBenchmark_finds_full_match (modelId modelName' : string)
  (benchmarks : list ModelBenchmark) (threshold : float) (b : ModelBenchmark) :
  In b benchmarks ->
  calculateSimilarity modelName' (modelName b) = 1 ->
  (threshold <=? 1) = true ->
  exists r,
    matchBenchmark modelId modelName' benchmarks (Some threshold) = Some r /\
    (1 <=? scoreOf (providerOf modelId) modelName' r) = true.
Proof.
  intros Hin Hsim Hthr.
  set (score := scoreOf (providerOf modelId) modelName').
  assert (Hone : (1 <=? score b) = true).
  { subst score. unfold scoreOf. rewrite Hsim.
    destruct (includes _ _ || includes _ _)%bool; vm_compute; reflexivity. }
  assert (Hq : qualifies threshold (score b)).
  { split.
    - eapply ltb_leb_trans; [|exact Hone]. vm_compute. reflexivity.
    - eapply leb_trans; eassumption. }
  pose proof (matchBenchmark_result modelId modelName' benchmarks threshold) as H.
  fold score in H.
  destruct (matchBenchmark modelId modelName' benchmarks (Some threshold)) as [r|].
  - exists r. split; [reflexivity|].
    destruct H as (Hqr & pre & post & E & Hpre & Hpost).
    rewrite E in Hin. apply in_app_or in Hin. destruct Hin as [Hin|[<-|Hin]].
    + eapply leb_trans; [exact Hone|]. apply ltb_leb. now apply Hpre.
    + exact Hone.
    + eapply leb_trans; [exact Hone|]. now apply Hpost.
  - now elim (H b Hin).
Qed.

Lemma matchBenchmark_finds_full_match_witness :
  exists r,
    matchBenchmark "anthropic/claude-haiku-4.5" "Claude Haiku 4.5"
      [namedRecord "Claude Sonnet 4.5" "Anthropic"; namedRecord "Claude 4.5 Haiku" "Anthropic"]
      (Some 1) = Some r /\
    (1 <=? scoreOf (providerOf "anthropic/claude-haiku-4.5") "Claude Haiku 4.5" r) = true.
Proof.
  apply (matchBenchmark_finds_full_match _ _ _ _ (namedRecord "Claude 4.5 Haiku" "Anthropic")).
  - right. now left.
  - vm_compute. reflexivity.
  - vm_compute. reflexivity.
Defined.

(** X20: lowering the threshold never changes a match: the record returned
    for a threshold is returned for every smaller threshold as well. *)
Theorem matchBenchmark_lower_threshold (modelId modelName' : string)
  (benchmarks : list ModelBenchmark) (threshold threshold' : float) (b : ModelBenchmark) :
  (threshold' <=? threshold) = true ->
  matchBenchmark modelId modelName' benchmarks (Some threshold) = Some b ->
  matchBenchmark modelId modelName' benchmarks (Some threshold') = Some b.
Proof.
  intros Hle Hb.
  set (score := scoreOf (providerOf modelId) modelName').
  pose proof (matchBenchmark_result modelId modelName' benchmarks threshold) as H.
  rewrite Hb in H. fold score in H.
  destruct H as ([Hpos Hthr] & pre & post & E & Hpre & Hpost).
  assert (Hlow : forall x, qualifies threshold' (score x) ->
                   qualifies threshold (score x) \/ (score x <? score b) = true).
  { intros x [Hxpos Hxthr].
    destruct (threshold <=? score x) eqn:Ex; [left; now split|]. right.
    eapply ltb_leb_trans; [|exact Hthr].
    exact (not_leb_ltb _ _ _ _ Ex Hxpos Hthr). }
  assert (Hbest : firstBest threshold' score benchmarks b).
  { split; [split; [exact Hpos | eapply leb_trans; eassumption]|].
    exists pre, post. split; [exact E|]. split.
    - intros x Hx Hq. destruct (Hlow x Hq) as [Hq'|Hlt]; [now apply Hpre | exact Hlt].
    - intros x Hx Hq. destruct (Hlow x Hq) as [Hq'|Hlt]; [now apply Hpost | now apply ltb_leb]. }
  pose proof (matchBenchmark_result modelId modelName' benchmarks threshold') as H'.
  fold score in H'.
  destruct (matchBenchmark modelId modelName' benchmarks (Some threshold')) as [r|].
  - f_equal. exact (firstBest_unique _ _ _ _ _ H' Hbest).
  - exfalso. destruct Hbest as [Hq _]. apply (H' b); [|exact Hq].
    rewrite E. apply in_or_app. right. now left.
Qed.

Lemma matchBenchmark_lower_threshold_witness :
  matchBenchmark "anthropic/claude-haiku-4.5" "Claude Haiku 4.5"
    [namedRecord "Claude Sonnet 4.5" "Anthropic"; namedRecord "Claude Haiku 4.5" "Anthropic"]
    (Some 0.1) = Some (namedRecord "Claude Haiku 4.5" "Anthropic").
Proof.
  apply (matchBenchmark_lower_threshold _ _ _ 1); vm_compute; reflexivity.
Defined.

(** X21: a record that does not qualify, because its score is not positive
    or is below the threshold, has no influence: removing it from the list
    leaves the result as it is. *)
Theorem matchBenchmark_ignores_unqualified (modelId modelName' : string)
  (before after : list ModelBenchmark) (x : ModelBenchmark) (threshold : float) :
  ~ qualifies threshold (scoreOf (providerOf modelId) modelName' x) ->
  matchBenchmark modelId modelName' (before ++ x :: after) (Some threshold) =
  matchBenchmark modelId modelName' (before ++ after) (Some threshold).
Proof.
  intros Hnq. rewrite !matchBenchmark_fold, !fold_left_app. cbn [fold_left].
  change (default defaultThreshold (Some threshold)) with threshold.
  assert (Hinv : loopInvariant (providerOf modelId) modelName' threshold before
                   (fold_left (matchStep (providerOf modelId) modelName' threshold)
                      before (None, 0))).
  { apply (loopInvariant_fold (providerOf modelId) modelName' threshold before [] (None, 0)).
    split; [reflexivity | intros ? []]. }
  set (best := fold_left (matchStep (providerOf modelId) modelName' threshold) before (None, 0))
    in *.
  assert (Hstep : matchStep (providerOf modelId) modelName' threshold best x = best).
  { destruct (matchStep_cases (providerOf modelId) modelName' threshold best x)
      as [(Hlt & Hthr & _)|(_ & E)]; [|exact E].
    exfalso. apply Hnq. split; [|exact Hthr].
    unfold loopInvariant in Hinv. cbv zeta in Hinv.
    destruct (fst best) as [b|].
    - destruct Hinv as (Hs & [Hbpos _] & _).
      rewrite Hs in Hlt. eapply ltb_trans; eassumption.
    - destruct Hinv as (Hs & _). now rewrite Hs in Hlt. }
  now rewrite Hstep.
Qed.

Lemma matchBenchmark_ignores_unqualified_witness :
  matchBenchmark "anthropic/claude-haiku-4.5" "Claude Haiku 4.5"
    ([namedRecord "Claude Sonnet 4.5" "Anthropic"] ++
     namedRecord "Gemini Ultra" "Google" :: [namedRecord "Claude Haiku 4.5" "Anthropic"])
    (Some 0.5) =
  matchBenchmark "anthropic/claude-haiku-4.5" "Claude Haiku 4.5"
    ([namedRecord "Claude Sonnet 4.5" "Anthropic"] ++
     [namedRecord "Claude Haiku 4.5" "Anthropic"])
    (Some 0.5).
Proof.
  apply matchBenchmark_ignores_unqualified.
  intros [Hpos _]. vm_compute in Hpos. discriminate.
Defined.

(** *** The creator boost at its edges *)

(** X22: the creator boost is given to every record when the provider is
    empty, which is the case for an empty model id and for every model id
    that begins with ['/'], and to every record whose creator is empty:
    the empty string occurs in every string. *)
Theorem scoreOf_empty_provider (modelName' : string) (benchmark : ModelBenchmark) :
  (forall rest,
     scoreOf (providerOf ("/" +:+ rest)) modelName' benchmark =
     calculateSimilarity modelName' (modelName benchmark) * 1.2) /\
  scoreOf (providerOf "") modelName' benchmark =
    calculateSimilarity modelName' (modelName benchmark) * 1.2 /\
  (forall provider,
     creator benchmark = "" ->
     scoreOf provider modelName' benchmark =
     calculateSimilarity modelName' (modelName benchmark) * 1.2).
Proof.
  split; [|split].
  - intros rest. unfold scoreOf.
    change (providerOf ("/" +:+ rest)) with (providerOf (String "/" rest)).
    rewrite providerOf_eq, split_char_cons, Ascii.eqb_refl. cbn [hd toLowerCase].
    now rewrite includes_empty.
  - unfold scoreOf. change (providerOf "") with "". now rewrite includes_empty.
  - intros provider Hc. unfold scoreOf. rewrite Hc. cbn [toLowerCase].
    now rewrite includes_empty, orb_true_r.
Qed.

Lemma scoreOf_empty_provider_witness :
  scoreOf "openai" "GPT-4 Turbo" (namedRecord "GPT-4 Turbo" "") = 1.2.
Proof.
  destruct (scoreOf_empty_provider "GPT-4 Turbo" (namedRecord "GPT-4 Turbo" ""))
    as (_ & _ & H).
  rewrite (H "openai" eq_refl). vm_compute. reflexivity.
Defined.

End MatchingFacts.
(** ** Scenarios of the specification *)

Module Scenarios.
Import JsString JsNumber JsValue OpenRouterModels Benchmarks.

Local Open Scope float_scope.

(** [parseFloat] agrees with the reader of floating-point literals, also
    half-way between two values, on subnormal numbers and at overflow. *)
Example parseFloat_literals :
  parseFloat "0.000001" = 0.000001 /\
  parseFloat "52.1" = 52.1 /\
  parseFloat "  -12.5e3 per token" = -12500 /\
  parseFloat "9007199254740993" = 9007199254740992 /\
  parseFloat "9007199254740995" = 9007199254740996 /\
  parseFloat "5e-324" = 5e-324 /\
  parseFloat "2e-324" = 0 /\
  parseFloat "1.7976931348623157e308" = 1.7976931348623157e308 /\
  parseFloat "1.7976931348623159e308" = infinity /\
  parseFloat "-0" = -0 /\
  PrimFloat.is_nan (parseFloat "n/a") = true /\
  PrimFloat.is_nan (parseFloat ".") = true.
Proof. repeat split; vm_compute; reflexivity. Qed.

Example normalize_claude_haiku :
  let normalized :=
    normalizeOpenRouterModel
      {| id := "anthropic/claude-haiku-4.5";
         name := "Claude Haiku 4.5";
         description := None;
         context_length := Some 200000;
         pricing := Some {| prompt := Some "0.000001"; completion := Some "0.000005" |};
         architecture_modality := Some "Text->Text";
         supported_parameters := Some ["tools"];
         capabilities := Some ["search"] |} in
  pm_provider normalized = ProviderName "Anthropic" /\
  pm_contextWindow normalized = 200000 /\
  pm_inputPrice normalized = 1 /\
  pm_outputPrice normalized = 5 /\
  pm_modality normalized = "text->text".
Proof. repeat split; vm_compute; reflexivity. Qed.

(** The table read reaches [Object.prototype] for two lower-case slugs; the
    value handed back is then no string. *)
Example extractProvider_inherited_members :
  extractProvider "constructor/model" = PrototypeMember "constructor" /\
  extractProvider "__PROTO__/model" = PrototypeMember "__proto__" /\
  extractProvider "toString/model" = ProviderName "Tostring".
Proof. repeat split; vm_compute; reflexivity. Qed.

Example capabilities_sonar_pro :
  supportsTools (Some ["tools"]) = true /\
  supportsSearchCapability (Some "perplexity/sonar-pro") (Some "Sonar Pro")
    (Some ["search"]) (Some ["tools"]) = true /\
  supportsVision (Some "text->text") = false.
Proof. repeat split; reflexivity. Qed.

Example parse_and_match_claude_haiku :
  let raw :=
    VObject [("data",
              VArray [VObject [ ("model_name", VString "Claude Haiku 4.5");
                                ("model_creator", VObject [("name", VString "Anthropic")]);
                                ("evaluations",
                                 VObject [("artificial_analysis_intelligence_index",
                                           VNumber 52.1)]) ]])] in
  let record :=
    {| modelName := "Claude Haiku 4.5"; creator := "Anthropic";
       intelligenceIndex := Some 52.1; codingIndex := None; mathIndex := None;
       outputSpeed := None; latency := None; priceInput := None; priceOutput := None |} in
  parseBenchmarks raw = Ret [record] /\
  matchBenchmark "anthropic/claude-haiku-4.5" "Claude Haiku 4.5" [record] None = Some record /\
  scoreOf (providerOf "anthropic/claude-haiku-4.5") "Claude Haiku 4.5" record = 1.2.
Proof. repeat split; vm_compute; reflexivity. Qed.

End Scenarios.
